(** * A shallow embedding of the stock-market analytics engine

    The program is a single Python module: trades, two stock variants that
    share a price and a trade log, and a market that registers stocks,
    issues trade ids and routes buy / sell / price-update requests.

    Conventions of the embedding.
    - Python numbers (prices, quantities, dividends, timestamps) are ints,
      of any size, and floats, the binary64 values of the kernel with their
      IEEE operations; mixed arithmetic converts as Python does.  The float
      power [**] is a parameter of the development.
    - The integer trade-id counter is a [Z].
    - A method that mutates [self] is a function from the object's state to
      an outcome and the state it leaves behind; an exception keeps whatever
      state the method had reached when it was raised.
    - [time.time()] is an argument [now], a float, of the operations that
      read it.
    - [print] appends a line to an explicit list of printed lines. *)

From Stdlib Require Import ZArith QArith Qpower Qcanon Ascii String Floats.
From stdpp Require Import gmap strings list fin_maps sorting.

Set Warnings "-inexact-float".

Local Open Scope Qc_scope.

(** ** Numbers

    A Python number is an [int], of any size, or a [float], an IEEE 754
    binary64 value.  Arithmetic on two ints is exact; when a float takes
    part, an int operand is first converted to the nearest float, which
    raises [OverflowError] when the int is too large, and the operation is
    the IEEE one, rounding included. *)

Inductive num : Type :=
  | PyInt (z : Z)
  | PyFloat (f : float).

(** ** Exceptions

    Every [raise] of the module raises a [ValueError] whose message is
    formatted from the values kept here; the constructors are named after
    the error kind each message stands for.  [AttributeError], [KeyError],
    [ZeroDivisionError] and [OverflowError] are the interpreter's own. *)

Inductive exn : Type :=
  | InvalidSymbol (name : option string)      (* "Invalid stock name: {name}" *)
  | InvalidPrice (name : string) (price : num) (* "{name}: Invalid price: {price}" *)
  | SymbolMismatch (traded self_name : string) (* "Cannot trade {..} as {..}" *)
  | DuplicateSymbol (name : string)           (* "Already registered: {name}" *)
  | NotFound (name : string)                  (* "Stock {name} not found" *)
  | InsufficientData                          (* "Insufficient data" *)
  | AttributeError (attr : string)
  | KeyError (key : string)
  | ZeroDivisionError
  | OverflowError.

Inductive outcome (A : Type) : Type :=
  | Ok (a : A)
  | Raise (e : exn).
Arguments Ok {A} a.
Arguments Raise {A} e.

Definition succeeded {A} (r : outcome A) : bool :=
  match r with Ok _ => true | Raise _ => false end.

(** Pure computations that may raise. *)
Definition obind {A B} (r : outcome A) (k : A → outcome B) : outcome B :=
  match r with Ok a => k a | Raise e => Raise e end.

(** Methods: state in, outcome and state out. *)
Definition M (S A : Type) : Type := S → outcome A * S.

Definition ret {S A} (a : A) : M S A := λ s, (Ok a, s).
Definition raise {S A} (e : exn) : M S A := λ s, (Raise e, s).
Definition bind {S A B} (c : M S A) (k : A → M S B) : M S B :=
  λ s, match c s with
       | (Ok a, s') => k a s'
       | (Raise e, s') => (Raise e, s')
       end.
Definition get {S} : M S S := λ s, (Ok s, s).
Definition put {S} (s : S) : M S unit := λ _, (Ok tt, s).

Declare Scope py_scope.
Delimit Scope py_scope with py.
Notation "x <~ c ;; k" := (bind c (λ x, k))
  (at level 100, c at next level, right associativity) : py_scope.
Notation "c ;;; k" := (bind c (λ _, k))
  (at level 100, right associativity) : py_scope.
Local Open Scope py_scope.

(** ** Arithmetic

    The operations on numbers, as Python defines them for ints and
    floats. *)

(** [float(z)]: the nearest binary64 value, ties to even. *)
Definition float_of_int (z : Z) : outcome float :=
  match binary_normalize prec emax z 0 false with
  | S754_infinity _ => Raise OverflowError
  | sf => Ok (SF2Prim sf)
  end.

Definition to_float (a : num) : outcome float :=
  match a with
  | PyInt z => float_of_int z
  | PyFloat f => Ok f
  end.

Definition float_op (op : float → float → float) (a b : num) : outcome num :=
  obind (to_float a) (λ x, obind (to_float b) (λ y, Ok (PyFloat (op x y)))).

(** [a + b], [a - b], [a * b] *)
Definition num_add (a b : num) : outcome num :=
  match a, b with
  | PyInt x, PyInt y => Ok (PyInt (x + y))
  | _, _ => float_op PrimFloat.add a b
  end.

Definition num_sub (a b : num) : outcome num :=
  match a, b with
  | PyInt x, PyInt y => Ok (PyInt (x - y))
  | _, _ => float_op PrimFloat.sub a b
  end.

Definition num_mul (a b : num) : outcome num :=
  match a, b with
  | PyInt x, PyInt y => Ok (PyInt (x * y))
  | _, _ => float_op PrimFloat.mul a b
  end.

(** Comparisons are exact, also between an int and a float: each number
    that is not a NaN stands for a rational or an infinity, and the numbers
    compare as these do; every comparison with a NaN is false, so [!=] with
    a NaN is true.  Between two floats this is the IEEE comparison. *)
Inductive xreal : Type :=
  | NegInf
  | Real (q : Qc)
  | PosInf.

Definition float_value (f : float) : option xreal :=
  match Prim2SF f with
  | S754_nan => None
  | S754_zero _ => Some (Real 0)
  | S754_infinity s => Some (if s then NegInf else PosInf)
  | S754_finite s m e =>
      Some (Real (Q2Qc ((if s then -1 else 1) * inject_Z (Z.pos m) * Qpower 2 e)))
  end.

Definition value (a : num) : option xreal :=
  match a with
  | PyInt z => Some (Real (Qc_of_Z z))
  | PyFloat f => float_value f
  end.

Definition xreal_lt (x y : xreal) : bool :=
  match x, y with
  | NegInf, NegInf => false
  | NegInf, _ => true
  | Real _, NegInf => false
  | Real p, Real q => bool_decide (p < q)
  | Real _, PosInf => true
  | PosInf, _ => false
  end.

Definition xreal_le (x y : xreal) : bool :=
  match x, y with
  | NegInf, _ => true
  | Real _, NegInf => false
  | Real p, Real q => bool_decide (p ≤ q)
  | Real _, PosInf => true
  | PosInf, PosInf => true
  | PosInf, _ => false
  end.

Definition xreal_eq (x y : xreal) : bool :=
  match x, y with
  | NegInf, NegInf => true
  | Real p, Real q => bool_decide (p = q)
  | PosInf, PosInf => true
  | _, _ => false
  end.

Definition compare_with (test : xreal → xreal → bool) (a b : num) : bool :=
  match value a, value b with
  | Some x, Some y => test x y
  | _, _ => false
  end.

(** [a < b], [a <= b], [a == b], [a != b] *)
Definition num_lt : num → num → bool := compare_with xreal_lt.
Definition num_le : num → num → bool := compare_with xreal_le.
Definition num_eq : num → num → bool := compare_with xreal_eq.
Definition num_ne (a b : num) : bool := negb (num_eq a b).

(** The quotient of two ints as the nearest float, ties to even: the
    quotient is taken with enough extra bits, the last of which records
    whether anything was cut off, and then rounded once. *)
Definition round_quotient (x y : Z) : spec_float :=
  let negative := xorb (x <? 0)%Z (y <? 0)%Z in
  let a := Z.abs x in
  let b := Z.abs y in
  if (a =? 0)%Z then S754_zero negative
  else
    let k := Z.max 0 (Z.log2 b - Z.log2 a + 64) in
    let n := Z.shiftl a k in
    let sticky := if (n mod b =? 0)%Z then 0%Z else 1%Z in
    let mantissa := (2 * (n / b) + sticky)%Z in
    binary_normalize prec emax (if negative then - mantissa else mantissa)%Z
      (- k - 1) false.

(** Python's true division [a / b]: between two ints the correctly rounded
    quotient, [OverflowError] when it is too large for a float; otherwise
    the IEEE quotient of the two operands as floats.  A zero divisor raises
    [ZeroDivisionError]. *)
Definition num_truediv (a b : num) : outcome num :=
  match a, b with
  | PyInt x, PyInt y =>
      if (y =? 0)%Z then Raise ZeroDivisionError
      else match round_quotient x y with
           | S754_infinity _ => Raise OverflowError
           | sf => Ok (PyFloat (SF2Prim sf))
           end
  | _, _ =>
      obind (to_float a) (λ x, obind (to_float b) (λ y,
        if num_eq (PyFloat y) (PyFloat 0) then Raise ZeroDivisionError
        else Ok (PyFloat (x / y))))
  end.

Definition is_float (a : num) : bool :=
  match a with PyFloat _ => true | PyInt _ => false end.

Arguments num_lt : simpl never.
Arguments num_le : simpl never.
Arguments num_eq : simpl never.
Arguments num_add : simpl never.
Arguments num_sub : simpl never.
Arguments num_mul : simpl never.
Arguments num_truediv : simpl never.
Arguments float_of_int : simpl never.

(** ** Trades *)

Inductive TradeIndicator : Type := BUY | SELL.

Record Trade : Type := mkTrade {
  trade_id : Z;
  stock_name : string;
  quantity : num;
  indicator : TradeIndicator;
  traded_price : num;
  timestamp : num
}.

Definition get_trade_id (t : Trade) : Z := trade_id t.
Definition get_stock_name (t : Trade) : string := stock_name t.
Definition get_quantity (t : Trade) : num := quantity t.
Definition get_indicator (t : Trade) : TradeIndicator := indicator t.
Definition get_traded_price (t : Trade) : num := traded_price t.
Definition get_timestamp (t : Trade) : num := timestamp t.

(** ** Stocks

    [Stock] is abstract; an object is a [CommonStock] or a [PreferredStock].
    The fields of the base class and the fields of the subclass are kept in
    one record, the subclass part under [variant]. *)

Inductive StockVariant : Type :=
  | Common (last_dividend : num)
  | Preferred (fixed_dividend_ratio par_value : num).

Record Stock : Type := mkStock {
  name : string;
  price : num;
  trades : list Trade;
  variant : StockVariant
}.

Definition with_price (p : num) (self : Stock) : Stock :=
  mkStock (name self) p (trades self) (variant self).
Definition with_trades (l : list Trade) (self : Stock) : Stock :=
  mkStock (name self) (price self) l (variant self).

Definition is_upper (c : ascii) : bool :=
  (65 <=? nat_of_ascii c)%nat && (nat_of_ascii c <=? 90)%nat.

(** [re.match("[A-Z]{3}", s)] as a truth value: [re.match] anchors the
    pattern at the start of [s] only. *)
Definition re_match_upper3 (s : string) : bool :=
  match s with
  | String a (String b (String c _)) => is_upper a && is_upper b && is_upper c
  | _ => false
  end.

(** [name is not None and re.match("[A-Z]{3}", name)] *)
Definition is_valid_name (name : option string) : bool :=
  match name with
  | None => false
  | Some s => re_match_upper3 s
  end.

(** [Stock.is_valid_price]: the body is [return True]. *)
Definition is_valid_price (stockName : string) (price : num) : bool := true.

Section Engine.

(** The price validation rule.  The program's rule is [is_valid_price];
    the operations are written over an arbitrary rule so that what they do
    when a price is rejected is part of the model. *)
Variable valid_price : string → num → bool.

(** [Stock.__init__]: the fields of the base class. *)
Definition Stock_init (name : option string) (price : num)
  : outcome (string * num * list Trade) :=
  if negb (is_valid_name name) then Raise (InvalidSymbol name)
  else match name with
       | None => Raise (InvalidSymbol name)
       | Some n =>
           if negb (valid_price n price) then Raise (InvalidPrice n price)
           else Ok (n, price, [])
       end.

Definition CommonStock_init (name : option string) (last_dividend price : num)
  : outcome Stock :=
  obind (Stock_init name price) (λ '(n, p, l),
    Ok (mkStock n p l (Common last_dividend))).

Definition PreferredStock_init (name : option string)
    (fixed_dividend_ratio par_value price : num) : outcome Stock :=
  obind (Stock_init name price) (λ '(n, p, l),
    Ok (mkStock n p l (Preferred fixed_dividend_ratio par_value))).

Definition set_price (price : num) : M Stock unit :=
  self <~ get ;;
  if negb (valid_price (name self) price)
  then raise (InvalidPrice (name self) price)
  else put (with_price price self).

Definition add_trade (trade : Trade) : M Stock unit :=
  self <~ get ;;
  if negb (bool_decide (get_stock_name trade = name self))
  then raise (SymbolMismatch (get_stock_name trade) (name self))
  else
    set_price (get_traded_price trade) ;;;
    self <~ get ;;
    put (with_trades (trades self ++ [trade]) self).

End Engine.

(** ** Dividend yield *)

Definition get_dividend_yield (self : Stock) : outcome num :=
  match variant self with
  | Common last_dividend =>
      if num_ne (price self) (PyFloat 0) then num_truediv last_dividend (price self)
      else Ok (PyFloat 0)
  | Preferred fixed_dividend_ratio par_value =>
      if num_ne (price self) (PyFloat 0)
      then obind (num_mul fixed_dividend_ratio par_value) (λ dividend,
             num_truediv dividend (price self))
      else Ok (PyFloat 0)
  end.

Definition is_common (self : Stock) : bool :=
  match variant self with Common _ => true | Preferred _ _ => false end.
Definition is_preferred (self : Stock) : bool :=
  match variant self with Common _ => false | Preferred _ _ => true end.

(** ** Volume-weighted price *)

(** The length of the trailing window, the literal [10] of the method. *)
Definition window : num := PyInt 10.

(** The loop [for t in reversed(self.trades)] on the reversed log, with the
    two accumulators; [break] ends the recursion. *)
Fixpoint scan (cutoff : num) (ts : list Trade) (nominator denominator : num)
  : outcome (num * num) :=
  match ts with
  | [] => Ok (nominator, denominator)
  | t :: rest =>
      if num_lt (get_timestamp t) cutoff then Ok (nominator, denominator)
      else
        obind (num_mul (get_traded_price t) (get_quantity t)) (λ amount,
        obind (num_add nominator amount) (λ nominator,
        obind (num_add denominator (get_quantity t)) (λ denominator,
          scan cutoff rest nominator denominator)))
  end.

Definition get_volume_weighted_price (now : float) (self : Stock) : outcome num :=
  obind (num_sub (PyFloat now) window) (λ now_minus_10_seconds,
  obind (scan now_minus_10_seconds (reverse (trades self))
           (PyFloat 0) (PyFloat 0)) (λ '(nominator, denominator),
    if num_ne denominator (PyFloat 0) then num_truediv nominator denominator
    else Ok (PyFloat 0))).

(** ** The market *)

Record Market : Type := mkMarket {
  stocks_by_name : gmap string Stock;
  trade_id_counter : Z
}.

Definition with_stocks (d : gmap string Stock) (self : Market) : Market :=
  mkMarket d (trade_id_counter self).
Definition with_counter (n : Z) (self : Market) : Market :=
  mkMarket (stocks_by_name self) n.

(** [Market.__init__] *)
Definition Market_init : Market := mkMarket ∅ 1.

(** [self.stocks_by_name[key].method(...)]: the dictionary holds the stock
    object itself, so what the method does to the object is seen through
    the dictionary afterwards, also when the method raises. *)
Definition on_stock {A} (key : string) (method : M Stock A) : M Market A :=
  λ self,
    match stocks_by_name self !! key with
    | None => (Raise (KeyError key), self)
    | Some stock =>
        let '(r, stock') := method stock in
        (r, with_stocks (<[key := stock']> (stocks_by_name self)) self)
    end.

(** The process: the market and the lines printed so far. *)
Definition World : Type := Market * list string.

Definition on_market {A} (method : M Market A) : M World A :=
  λ '(m, out), let '(r, m') := method m in (r, (m', out)).

Definition print (line : string) : M World unit :=
  λ '(m, out), (Ok tt, (m, out ++ [line])).

Definition not_found_line (stock_name : string) : string :=
  String.append "Stock '" (String.append stock_name "' not found.").

Definition register (stock : Stock) : M Market unit :=
  self <~ get ;;
  if bool_decide (is_Some (stocks_by_name self !! name stock))
  then raise (DuplicateSymbol (name stock))
  else put (with_stocks (<[name stock := stock]> (stocks_by_name self)) self).

Definition find (name : string) : M Market Stock :=
  self <~ get ;;
  match stocks_by_name self !! name with
  | Some stock => ret stock
  | None => raise (KeyError name)
  end.

Section MarketEngine.

Variable valid_price : string → num → bool.

Definition buy_now (stock_name : string) (quantity price : num) (now : float)
  : M Market unit :=
  self <~ get ;;
  if negb (bool_decide (is_Some (stocks_by_name self !! stock_name)))
  then raise (NotFound stock_name)
  else
    on_stock stock_name
      (add_trade valid_price
         (mkTrade (trade_id_counter self) stock_name quantity BUY price
            (PyFloat now))) ;;;
    self <~ get ;;
    put (with_counter (trade_id_counter self + 1) self).

Definition sell_now (stock_name : string) (quantity price : num) (now : float)
  : M Market unit :=
  self <~ get ;;
  if negb (bool_decide (is_Some (stocks_by_name self !! stock_name)))
  then raise (NotFound stock_name)
  else
    on_stock stock_name
      (add_trade valid_price
         (mkTrade (trade_id_counter self) stock_name quantity SELL price
            (PyFloat now))) ;;;
    self <~ get ;;
    put (with_counter (trade_id_counter self + 1) self).

(** [new_prices.items()] is the list of the dictionary's entries in
    iteration order; its keys are pairwise distinct. *)
Fixpoint update_stock_prices (new_prices : list (string * num)) : M World unit :=
  match new_prices with
  | [] => ret tt
  | (stock_name, new_price) :: rest =>
      self <~ on_market get ;;
      (if bool_decide (is_Some (stocks_by_name self !! stock_name))
       then on_market (on_stock stock_name (set_price valid_price new_price))
       else print (not_found_line stock_name)) ;;;
      update_stock_prices rest
  end.

End MarketEngine.

(** ** Geometric mean *)

(** The names an instance of each class answers to: the instance
    attributes set by the constructors and the names bound in the class
    bodies. *)
Definition Stock_names : list string :=
  ["name"; "price"; "trades";
   "__init__"; "set_price"; "is_valid_name"; "is_valid_price"; "add_trade";
   "get_dividend_yield"; "get_volume_weighted_price"; "is_common";
   "is_preferred"; "__lt__"; "__str__"]%string.

Definition CommonStock_names : list string :=
  ["last_dividend"; "__init__"; "set_last_dividend"; "get_dividend_yield";
   "__eq__"]%string.

Definition PreferredStock_names : list string :=
  ["fixed_dividend_ratio"; "par_value"; "__init__";
   "set_fixed_dividend_ratio"; "set_par_value"; "get_dividend_yield";
   "__eq__"]%string.

Definition hasattr (self : Stock) (attr : string) : bool :=
  bool_decide (attr ∈ match variant self with
                      | Common _ => CommonStock_names ++ Stock_names
                      | Preferred _ _ => PreferredStock_names ++ Stock_names
                      end).

(** The call [s.get_price()].  Attribute lookup comes first and raises
    when the name is not bound; a getter bound to that name would hand
    back the price field, as the getters of [Trade] do for theirs. *)
Definition get_price (self : Stock) : outcome num :=
  if hasattr self "get_price" then Ok (price self)
  else Raise (AttributeError "get_price").

Section GeometricMean.

(** The float power [x ** y]. *)
Variable float_pow : num → num → outcome num.

(** The loop [for s in stocks: product *= s.get_price()]. *)
Fixpoint product_loop (stocks : list Stock) (product : num) : outcome num :=
  match stocks with
  | [] => Ok product
  | s :: rest =>
      obind (get_price s) (λ p,
      obind (num_mul product p) (λ product, product_loop rest product))
  end.

Definition get_geometric_mean (self : Market) : outcome num :=
  let stocks := (map_to_list (stocks_by_name self)).*2 in
  if bool_decide (length stocks = 0%nat) then Raise InsufficientData
  else
    obind (product_loop stocks (PyFloat 1)) (λ product,
    obind (num_truediv (PyFloat 1) (PyInt (Z.of_nat (length stocks)))) (λ exponent,
      float_pow product exponent)).

End GeometricMean.

(** ** Sequences of calls *)

Inductive call : Type :=
  | CallRegister (stock : Stock)
  | CallBuyNow (stock_name : string) (quantity price : num) (now : float)
  | CallSellNow (stock_name : string) (quantity price : num) (now : float)
  | CallUpdateStockPrices (new_prices : list (string * num)).

Definition is_trade_call (c : call) : bool :=
  match c with
  | CallBuyNow _ _ _ _ | CallSellNow _ _ _ _ => true
  | _ => false
  end.

Section Calls.

Variable valid_price : string → num → bool.

Definition exec (c : call) : M World unit :=
  match c with
  | CallRegister stock => on_market (register stock)
  | CallBuyNow n q p now => on_market (buy_now valid_price n q p now)
  | CallSellNow n q p now => on_market (sell_now valid_price n q p now)
  | CallUpdateStockPrices new_prices => update_stock_prices valid_price new_prices
  end.

(** The trade a successful buy or sell has just recorded: the last entry
    of the log of the stock it named. *)
Definition recorded (c : call) (w : World) : option Trade :=
  match c with
  | CallBuyNow n _ _ _ | CallSellNow n _ _ _ =>
      stocks_by_name w.1 !! n ≫= λ s, last (trades s)
  | _ => None
  end.

(** The caller goes on after a failed call. *)
Fixpoint run (cs : list call) (w : World) : World :=
  match cs with
  | [] => w
  | c :: rest => run rest (exec c w).2
  end.

(** The trades recorded by the successful buy and sell calls, in order. *)
Fixpoint issued (cs : list call) (w : World) : list Trade :=
  match cs with
  | [] => []
  | c :: rest =>
      let '(r, w') := exec c w in
      (if succeeded r then option_list (recorded c w') else []) ++ issued rest w'
  end.

End Calls.

(** ** Specification-level notions *)

(** The lower end of the window, [time.time() - 10] as the method
    computes it: a float subtraction. *)
Definition cutoff (now : float) : num := PyFloat (now - 10).

(** A trade is recent at [now] when its timestamp is not below the lower
    end of the window: the test of the loop, negated.  There is no upper
    end. *)
Definition recent (now : float) (t : Trade) : Prop :=
  num_lt (timestamp t) (cutoff now) = false.

Global Instance recent_dec now t : Decision (recent now t).
Proof. unfold recent. apply _. Defined.

(** A trade is within the trailing window that ends at [now] when its
    timestamp lies between the lower end and [now]. *)
Definition within_window (now : float) (t : Trade) : Prop :=
  num_le (cutoff now) (timestamp t) = true
  ∧ num_le (timestamp t) (PyFloat now) = true.

Global Instance within_window_dec now t : Decision (within_window now t).
Proof. unfold within_window. apply _. Defined.

(** The log is in execution order. *)
Definition time_ordered (log : list Trade) : Prop :=
  Sorted (λ a b, num_le (timestamp a) (timestamp b) = true) log.

(** The two running totals over all the trades of a list, taken in the
    order of the list with the arithmetic of the loop. *)
Fixpoint totals (l : list Trade) (nominator denominator : num)
  : outcome (num * num) :=
  match l with
  | [] => Ok (nominator, denominator)
  | t :: rest =>
      obind (num_mul (traded_price t) (quantity t)) (λ amount,
      obind (num_add nominator amount) (λ nominator,
      obind (num_add denominator (quantity t)) (λ denominator,
        totals rest nominator denominator)))
  end.

(** The quotient of the two totals, [0.0] when the total quantity is [0]. *)
Definition quotient_or_zero (acc : num * num) : outcome num :=
  if num_ne acc.2 (PyFloat 0) then num_truediv acc.1 acc.2
  else Ok (PyFloat 0).

(** The volume-weighted price by filtering the whole log: keep the recent
    trades, total them from the most recent backwards, divide. *)
Definition volume_weighted_price_by_filter (now : float) (log : list Trade)
  : outcome num :=
  obind (totals (reverse (filter (recent now) log)) (PyFloat 0) (PyFloat 0))
    quotient_or_zero.

(** The most recent trade first: once a trade is too old, so is the rest. *)
Definition newest_first (l : list Trade) : Prop :=
  StronglySorted (λ a b, num_le (timestamp b) (timestamp a) = true) l.

(** What [buy_now] and [sell_now] leave behind when they succeed on the
    stock [s] registered under [n]: the price is the traded price, the new
    trade carries the counter's value and ends the log, the counter is one
    more. *)
Definition traded (side : TradeIndicator) (n : string) (q p : num) (now : float)
    (s : Stock) (m : Market) : Market :=
  mkMarket
    (<[n := mkStock (name s) p
              (trades s ++ [mkTrade (trade_id_counter m) n q side p (PyFloat now)])
              (variant s)]> (stocks_by_name m))
    (trade_id_counter m + 1).

(** The outcome of a buy or a sell by cases: the symbol is not registered,
    the stock found under it goes by another name, the price is rejected,
    or the trade is recorded. *)
Definition trade_outcome (valid_price : string → num → bool)
    (side : TradeIndicator) (n : string) (q p : num) (now : float) (m : Market)
  : outcome unit * Market :=
  match stocks_by_name m !! n with
  | None => (Raise (NotFound n), m)
  | Some s =>
      if decide (n = name s) then
        if valid_price (name s) p then (Ok tt, traded side n q p now s m)
        else (Raise (InvalidPrice (name s) p), m)
      else (Raise (SymbolMismatch n (name s)), m)
  end.

(** The lines [update_stock_prices] prints: one per entry whose symbol is
    not registered, in the order of the entries. *)
Definition warnings (m : Market) (new_prices : list (string * num)) : list string :=
  not_found_line <$> filter (λ k, ¬ is_Some (stocks_by_name m !! k)) new_prices.*1.

(** Exactly three upper-case letters. *)
Definition three_upper (s : string) : Prop :=
  ∃ a b c, s = String a (String b (String c EmptyString))
           ∧ is_upper a = true ∧ is_upper b = true ∧ is_upper c = true.

(** ** The stocks and trades of the module's demonstration *)

Definition TEA : Stock := mkStock "TEA" (PyFloat 34.42) [] (Common (PyInt 0)).

Definition GIN : Stock :=
  mkStock "GIN" (PyFloat 15.45) [] (Preferred (PyFloat 0.02) (PyInt 100)).

(** The market once [TEA] and [GIN] are registered. *)
Definition demo_market : Market :=
  mkMarket (<["GIN"%string := GIN]> (<["TEA"%string := TEA]> ∅)) 1.

(** A buy at time [0] and a sell at time [1]. *)
Definition demo_trades : list Trade :=
  [mkTrade 1 "TEA" (PyInt 10) BUY (PyFloat 34.30) (PyFloat 0);
   mkTrade 2 "TEA" (PyInt 20) SELL (PyFloat 34.20) (PyFloat 1)].

Definition TEA_traded : Stock :=
  mkStock "TEA" (PyFloat 34.20) demo_trades (Common (PyInt 0)).

(** A validation rule that rejects negative prices. *)
Definition nonnegative_price (stockName : string) (price : num) : bool :=
  num_le (PyInt 0) price.

(** Register [TEA], buy, try to sell an unknown symbol, sell. *)
Definition demo_calls : list call :=
  [CallRegister TEA;
   CallBuyNow "TEA" (PyInt 10) (PyFloat 34.30) 0;
   CallSellNow "ZZZ" (PyInt 1) (PyInt 1) 1;
   CallSellNow "TEA" (PyInt 20) (PyFloat 34.20) 1].

(** A stock whose one trade carries a timestamp later than the time of the
    query: added through [add_trade] with a trade built by the caller. *)
Definition TEA_ahead : Stock :=
  mkStock "TEA" (PyFloat 5)
    [mkTrade 1 "TEA" (PyFloat 1) BUY (PyFloat 5) (PyFloat 100)] (Common (PyInt 0)).

(** A stock with one trade of 3 at 15.45. *)
Definition GIN_traded : Stock :=
  mkStock "GIN" (PyFloat 15.45)
    [mkTrade 1 "GIN" (PyInt 3) BUY (PyFloat 15.45) (PyFloat 0)]
    (Preferred (PyFloat 0.02) (PyInt 100)).

(** A common stock whose last dividend is an int beyond the range of
    floats. *)
Definition TEA_huge : Stock :=
  mkStock "TEA" (PyInt 3) [] (Common (PyInt (10 ^ 400))).

(** ** Equality, ordering and the setters of the subclasses *)

Definition with_variant (v : StockVariant) (self : Stock) : Stock :=
  mkStock (name self) (price self) (trades self) v.

(** [CommonStock.__eq__] and [PreferredStock.__eq__], chosen by the class
    of [self]; [same] is the outcome of the identity test [self is other]. *)
Definition Stock_eq (same : bool) (self other : Stock) : bool :=
  match variant self with
  | Common _ =>
      if same then true
      else if negb (is_common other) then false
      else bool_decide (name self = name other)
  | Preferred _ _ =>
      if same then true
      else if negb (is_preferred other) then false
      else bool_decide (name self = name other)
  end.

(** [Stock.__lt__]: the order of Python strings, character by character,
    a proper prefix first. *)
Definition Stock_lt (self other : Stock) : bool :=
  String.ltb (name self) (name other).

(** [CommonStock.set_last_dividend]; a [PreferredStock] has no attribute of
    that name. *)
Definition set_last_dividend (last_dividend : num) : M Stock unit :=
  self <~ get ;;
  match variant self with
  | Common _ => put (with_variant (Common last_dividend) self)
  | Preferred _ _ => raise (AttributeError "set_last_dividend")
  end.

(** [PreferredStock.set_fixed_dividend_ratio] *)
Definition set_fixed_dividend_ratio (fixed_dividend_ratio : num) : M Stock unit :=
  self <~ get ;;
  match variant self with
  | Preferred _ par_value =>
      put (with_variant (Preferred fixed_dividend_ratio par_value) self)
  | Common _ => raise (AttributeError "set_fixed_dividend_ratio")
  end.

(** [PreferredStock.set_par_value] *)
Definition set_par_value (par_value : num) : M Stock unit :=
  self <~ get ;;
  match variant self with
  | Preferred fixed_dividend_ratio _ =>
      put (with_variant (Preferred fixed_dividend_ratio par_value) self)
  | Common _ => raise (AttributeError "set_par_value")
  end.

(** ** Notions for the properties of whole runs *)

(** Every stock is stored under its own symbol. *)
Definition keys_are_names (m : Market) : Prop :=
  ∀ k s, stocks_by_name m !! k = Some s → name s = k.

(** The clock reading of a call that reads the clock. *)
Definition call_time (c : call) : option float :=
  match c with
  | CallBuyNow _ _ _ now | CallSellNow _ _ _ now => Some now
  | _ => None
  end.

Definition float_le (a b : float) : bool := num_le (PyFloat a) (PyFloat b).

(** The clock does not go back from one call to the next, and every
    reading is a number (a NaN is not below or equal to itself). *)
Definition clock_ordered (cs : list call) : Prop :=
  Sorted (λ a b, float_le a b = true) (omap call_time cs)
  ∧ Forall (λ a, float_le a a = true) (omap call_time cs).

(** The stocks handed to [register] come from their constructors: no
    trade has been added to them. *)
Definition fresh_registrations (cs : list call) : Prop :=
  ∀ stock, CallRegister stock ∈ cs → trades stock = [].

(** The trade a buy or sell builds when the counter is [id]. *)
Definition trade_of_call (id : Z) (c : call) : option Trade :=
  match c with
  | CallBuyNow n q p now => Some (mkTrade id n q BUY p (PyFloat now))
  | CallSellNow n q p now => Some (mkTrade id n q SELL p (PyFloat now))
  | _ => None
  end.

Definition call_symbol (c : call) : option string :=
  match c with
  | CallBuyNow n _ _ _ | CallSellNow n _ _ _ => Some n
  | _ => None
  end.

(** Every log is in execution order and holds nothing later than [T]. *)
Definition logs_ordered_until (T : float) (m : Market) : Prop :=
  ∀ k s, stocks_by_name m !! k = Some s →
    time_ordered (trades s)
    ∧ Forall (λ t, num_le (timestamp t) (PyFloat T) = true) (trades s).

(** The ids in the logs: all issued by the counter, none twice. *)
Definition ids_issued (m : Market) : Prop :=
  ∀ k s t, stocks_by_name m !! k = Some s → t ∈ trades s →
    (1 ≤ trade_id t < trade_id_counter m)%Z.

Definition ids_unique (m : Market) : Prop :=
  ∀ k1 k2 s1 s2 i j t1 t2,
    stocks_by_name m !! k1 = Some s1 → stocks_by_name m !! k2 = Some s2 →
    trades s1 !! i = Some t1 → trades s2 !! j = Some t2 →
    trade_id t1 = trade_id t2 → k1 = k2 ∧ i = j.

(** * Stocks: construction, price updates, trades *)

Section StockFacts.

Variable valid_price : string → num → bool.

Lemma set_price_accept p s :
  valid_price (name s) p = true →
  set_price valid_price p s = (Ok tt, with_price p s).
Proof. intros Hv. unfold set_price, bind, get, put. simpl. by rewrite Hv. Qed.

Lemma set_price_reject p s :
  valid_price (name s) p = false →
  set_price valid_price p s = (Raise (InvalidPrice (name s) p), s).
Proof. intros Hv. unfold set_price, bind, get, raise. simpl. by rewrite Hv. Qed.

Lemma add_trade_mismatch t s :
  stock_name t ≠ name s →
  add_trade valid_price t s
  = (Raise (SymbolMismatch (stock_name t) (name s)), s).
Proof.
  intros Hne. unfold add_trade, bind, get, raise, get_stock_name. simpl.
  by rewrite bool_decide_eq_false_2.
Qed.

Lemma add_trade_accept t s :
  stock_name t = name s →
  valid_price (name s) (traded_price t) = true →
  add_trade valid_price t s
  = (Ok tt, mkStock (name s) (traded_price t) (trades s ++ [t]) (variant s)).
Proof.
  intros Hn Hv. unfold add_trade, bind at 1, get at 1, get_stock_name. simpl.
  rewrite bool_decide_eq_true_2 by done. simpl.
  unfold bind at 1, get_traded_price. by rewrite set_price_accept.
Qed.

Lemma add_trade_reject t s :
  stock_name t = name s →
  valid_price (name s) (traded_price t) = false →
  add_trade valid_price t s
  = (Raise (InvalidPrice (name s) (traded_price t)), s).
Proof.
  intros Hn Hv. unfold add_trade, bind at 1, get at 1, get_stock_name. simpl.
  rewrite bool_decide_eq_true_2 by done. simpl.
  unfold bind at 1, get_traded_price. by rewrite set_price_reject.
Qed.

Lemma Stock_init_result (n : option string) (p : num) :
  Stock_init valid_price n p =
    match n with
    | None => Raise (InvalidSymbol None)
    | Some s =>
        if re_match_upper3 s
        then if valid_price s p then Ok (s, p, []) else Raise (InvalidPrice s p)
        else Raise (InvalidSymbol (Some s))
    end.
Proof.
  unfold Stock_init. destruct n as [s|]; simpl; [|done].
  destruct (re_match_upper3 s); simpl; [|done].
  by destruct (valid_price s p).
Qed.

End StockFacts.

Lemma three_upper_match s : three_upper s → re_match_upper3 s = true.
Proof. intros (a & b & c & -> & Ha & Hb & Hc). simpl. by rewrite Ha, Hb, Hc. Qed.

(** Construction accepts every symbol of exactly three upper-case
    letters, whatever the price. *)
Lemma Stock_init_three_upper s p :
  three_upper s → Stock_init is_valid_price (Some s) p = Ok (s, p, []).
Proof.
  intros H. rewrite Stock_init_result, three_upper_match by done. done.
Qed.

(** Construction rejects the absent symbol and every symbol whose first
    three characters are not all upper-case letters. *)
Lemma Stock_init_no_match n p :
  is_valid_name n = false →
  Stock_init is_valid_price n p = Raise (InvalidSymbol n).
Proof.
  intros H. rewrite Stock_init_result. destruct n as [s|]; [|done].
  simpl in H. by rewrite H.
Qed.

(** C3: construction does not reject a symbol with characters after its
    first three upper-case letters: ["TEAX"] is accepted, with any price,
    where the claim requires [InvalidSymbol]. *)
Theorem Stock_init_accepts_longer_symbol (p : num) :
  Stock_init is_valid_price (Some "TEAX"%string) p = Ok ("TEAX"%string, p, [])
  ∧ ¬ three_upper "TEAX"
  ∧ CommonStock_init is_valid_price (Some "TEAX"%string) (PyInt 0) p
    = Ok (mkStock "TEAX" p [] (Common (PyInt 0)))
  ∧ PreferredStock_init is_valid_price (Some "TEAX"%string) (PyInt 0) (PyInt 0) p
    = Ok (mkStock "TEAX" p [] (Preferred (PyInt 0) (PyInt 0))).
Proof.
  split; [done|]. split; [|done].
  intros (a & b & c & Heq & _). discriminate Heq.
Qed.

(** C9: [set_price] raises [InvalidPrice] exactly when the validation rule
    rejects the new price and otherwise replaces the price and nothing
    else; under the program's rule, which accepts every price, it never
    raises, whatever the sign of the price. *)
Theorem set_price_validated (valid_price : string → num → bool) (p : num) (s : Stock) :
  (valid_price (name s) p = false
   ↔ set_price valid_price p s = (Raise (InvalidPrice (name s) p), s))
  ∧ (valid_price (name s) p = true
     ↔ set_price valid_price p s
       = (Ok tt, mkStock (name s) p (trades s) (variant s)))
  ∧ (∀ e s', set_price valid_price p s = (Raise e, s') →
       e = InvalidPrice (name s) p ∧ s' = s)
  ∧ set_price is_valid_price p s
    = (Ok tt, mkStock (name s) p (trades s) (variant s)).
Proof.
  destruct (valid_price (name s) p) eqn:Hv.
  - rewrite (set_price_accept _ _ _ Hv). unfold with_price.
    repeat split; try done.
  - rewrite (set_price_reject _ _ _ Hv).
    repeat split; try done; intros; simplify_eq; done.
Qed.

(** C4: [add_trade] raises [SymbolMismatch] when the trade names another
    stock; otherwise it sets the price to the traded price and appends the
    trade at the end of the log exactly when that update is accepted; when
    it raises, for either reason, the price and the log are as before. *)
Theorem add_trade_atomic (valid_price : string → num → bool) (t : Trade) (s : Stock) :
  (stock_name t ≠ name s →
     add_trade valid_price t s
     = (Raise (SymbolMismatch (stock_name t) (name s)), s))
  ∧ (stock_name t = name s →
       match set_price valid_price (traded_price t) s with
       | (Ok _, s1) =>
           add_trade valid_price t s = (Ok tt, with_trades (trades s1 ++ [t]) s1)
           ∧ s1 = with_price (traded_price t) s
       | (Raise e, _) =>
           add_trade valid_price t s = (Raise e, s)
           ∧ e = InvalidPrice (name s) (traded_price t)
       end)
  ∧ (∀ s', add_trade valid_price t s = (Ok tt, s') ↔
       stock_name t = name s
       ∧ (set_price valid_price (traded_price t) s).1 = Ok tt
       ∧ s' = mkStock (name s) (traded_price t) (trades s ++ [t]) (variant s))
  ∧ (∀ e s', add_trade valid_price t s = (Raise e, s') →
       s' = s ∧ price s' = price s ∧ trades s' = trades s
       ∧ (e = SymbolMismatch (stock_name t) (name s)
          ∨ e = InvalidPrice (name s) (traded_price t))).
Proof.
  destruct (decide (stock_name t = name s)) as [Hn|Hn].
  - destruct (valid_price (name s) (traded_price t)) eqn:Hv.
    + rewrite (add_trade_accept _ _ _ Hn Hv), (set_price_accept _ _ _ Hv).
      repeat split; try done; intros; simplify_eq; try done.
      destruct H as (_ & _ & ->). done.
    + rewrite (add_trade_reject _ _ _ Hn Hv), (set_price_reject _ _ _ Hv).
      repeat split; try done; intros; simplify_eq; try done; auto.
      destruct H as (_ & ? & _). done.
  - rewrite (add_trade_mismatch _ _ _ Hn).
    repeat split; try done; intros; simplify_eq; try done; auto.
    destruct H as (? & _). done.
Qed.

(** * Numbers *)

Lemma xreal_le_lt_trans x y z :
  xreal_le x y = true → xreal_lt y z = true → xreal_lt x z = true.
Proof.
  destruct x, y, z; simpl; try done.
  rewrite !bool_decide_eq_true. apply Qcle_lt_trans.
Qed.

Lemma xreal_le_trans x y z :
  xreal_le x y = true → xreal_le y z = true → xreal_le x z = true.
Proof.
  destruct x, y, z; simpl; try done.
  rewrite !bool_decide_eq_true. apply Qcle_trans.
Qed.

Lemma xreal_lt_false_le x y : xreal_lt x y = false → xreal_le y x = true.
Proof.
  destruct x, y; simpl; try done.
  rewrite bool_decide_eq_false, bool_decide_eq_true. apply Qcnot_lt_le.
Qed.

Lemma xreal_le_lt_false x y : xreal_le y x = true → xreal_lt x y = false.
Proof.
  destruct x, y; simpl; try done.
  rewrite bool_decide_eq_false, bool_decide_eq_true. apply Qcle_not_lt.
Qed.

Lemma num_le_lt_trans a b c :
  num_le a b = true → num_lt b c = true → num_lt a c = true.
Proof.
  unfold num_le, num_lt, compare_with.
  destruct (value a), (value b), (value c); try done. apply xreal_le_lt_trans.
Qed.

Lemma num_le_trans a b c :
  num_le a b = true → num_le b c = true → num_le a c = true.
Proof.
  unfold num_le, compare_with.
  destruct (value a), (value b), (value c); try done. apply xreal_le_trans.
Qed.

(** A number that compares below or equal to something is not a NaN. *)
Lemma num_le_number a b : num_le a b = true → num_le a a = true.
Proof.
  unfold num_le, compare_with.
  destruct (value a) as [x|], (value b); try done. intros _.
  destruct x; simpl; try done. by rewrite bool_decide_eq_true.
Qed.

Lemma num_lt_false_iff_le a b :
  num_le a a = true → num_le b b = true →
  num_lt a b = false ↔ num_le b a = true.
Proof.
  unfold num_le, num_lt, compare_with.
  destruct (value a), (value b); try done. intros _ _.
  split; [apply xreal_lt_false_le|apply xreal_le_lt_false].
Qed.

Lemma to_float_raise a e : to_float a = Raise e → e = OverflowError.
Proof.
  destruct a as [z|f]; simpl; [|done]. unfold float_of_int.
  destruct (binary_normalize prec emax z 0 false); by intros [=].
Qed.

Lemma float_op_result op a b :
  match float_op op a b with
  | Ok r => is_float r = true
  | Raise e => e = OverflowError
  end.
Proof.
  unfold float_op.
  destruct (to_float a) as [x|e] eqn:Ha; simpl; [|by apply (to_float_raise a)].
  destruct (to_float b) as [y|e] eqn:Hb; simpl; [done|by apply (to_float_raise b)].
Qed.

Lemma num_mul_raise a b e : num_mul a b = Raise e → e = OverflowError.
Proof.
  intros H. unfold num_mul in H. destruct a, b; try done;
    match type of H with
    | float_op ?op ?x ?y = _ =>
        pose proof (float_op_result op x y) as Hr; by rewrite H in Hr
    end.
Qed.

(** Adding to a float gives a float, or raises [OverflowError]. *)
Lemma num_add_to_float f b :
  match num_add (PyFloat f) b with
  | Ok r => is_float r = true
  | Raise e => e = OverflowError
  end.
Proof. unfold num_add. apply (float_op_result PrimFloat.add (PyFloat f) b). Qed.

Lemma num_truediv_floats x y :
  num_truediv (PyFloat x) (PyFloat y)
  = if num_eq (PyFloat y) (PyFloat 0) then Raise ZeroDivisionError
    else Ok (PyFloat (x / y)).
Proof. done. Qed.

Lemma num_eq_int_zero y : num_eq (PyInt y) (PyFloat 0) = (y =? 0)%Z.
Proof.
  unfold num_eq, compare_with. simpl.
  change (float_value 0) with (Some (Real 0)). simpl.
  destruct (Z.eqb_spec y 0) as [->|Hne].
  - by vm_compute.
  - apply bool_decide_eq_false. intros Heq. apply Hne.
    apply (f_equal (λ q : Qc, Qnum (this q))) in Heq. simpl in Heq. done.
Qed.

(** * The float of an int

    Rounding to the nearest float yields a float in canonical form, and
    takes no nonzero int to zero. *)

Section IntToFloat.

Local Open Scope Z_scope.

Lemma fexp_unfold e : fexp prec emax e = Z.max (e - 53) (-1074).
Proof. reflexivity. Qed.

Lemma digits2_pos_size p : digits2_pos p = Pos.size p.
Proof. induction p; simpl; congruence. Qed.

Lemma Zdigits2_log2 m : 0 < m → Zdigits2 m = Z.log2 m + 1.
Proof.
  destruct m as [|p|p]; try lia. intros _. simpl. rewrite digits2_pos_size.
  destruct p; simpl; lia.
Qed.

Lemma Zdigits2_shiftr m n :
  0 < m → 0 ≤ n → 0 < Z.shiftr m n → Zdigits2 (Z.shiftr m n) = Zdigits2 m - n.
Proof.
  intros Hm Hn Hs. rewrite !Zdigits2_log2 by done. rewrite Z.log2_shiftr by done.
  assert (¬ Z.log2 m < n); [|lia].
  intros Hlt. rewrite (Z.shiftr_eq_0 m n) in Hs; lia.
Qed.

Lemma Zdigits2_mono a b : 0 < a → a ≤ b → Zdigits2 a ≤ Zdigits2 b.
Proof.
  intros Ha Hab. rewrite !Zdigits2_log2 by lia.
  pose proof (Z.log2_le_mono a b Hab). lia.
Qed.

Lemma Zdigits2_succ a : 0 < a → Zdigits2 (a + 1) ≤ Zdigits2 a + 1.
Proof.
  intros Ha. rewrite !Zdigits2_log2 by lia.
  pose proof (Z.log2_succ_le a). unfold Z.succ in *. lia.
Qed.

Lemma shr_1_shiftr mrs :
  0 ≤ shr_m mrs → shr_m (shr_1 mrs) = Z.shiftr (shr_m mrs) 1.
Proof.
  destruct mrs as [m r s]. simpl. rewrite <- Z.div2_spec.
  destruct m as [|[p|p|]|p]; simpl; first [done|lia].
Qed.

Lemma iter_shr_1_shiftr n :
  ∀ mrs, 0 ≤ shr_m mrs →
         shr_m (SpecFloat.iter_pos shr_1 n mrs) = Z.shiftr (shr_m mrs) (Z.pos n).
Proof.
  induction n as [n IH|n IH|]; intros mrs Hm; simpl.
  - assert (0 ≤ shr_m (shr_1 mrs)) as H1.
    { rewrite shr_1_shiftr by done. by apply Z.shiftr_nonneg. }
    assert (0 ≤ shr_m (SpecFloat.iter_pos shr_1 n (shr_1 mrs))) as H2.
    { rewrite IH by done. by apply Z.shiftr_nonneg. }
    rewrite IH, IH, shr_1_shiftr by done.
    rewrite !Z.shiftr_shiftr by lia. f_equal. lia.
  - assert (0 ≤ shr_m (SpecFloat.iter_pos shr_1 n mrs)) as H2.
    { rewrite IH by done. by apply Z.shiftr_nonneg. }
    rewrite IH, IH by done. rewrite Z.shiftr_shiftr by lia. f_equal. lia.
  - by apply shr_1_shiftr.
Qed.

Lemma shr_record_of_loc_m m l : shr_m (shr_record_of_loc m l) = m.
Proof. by destruct l as [|[]]. Qed.

(** Shifting to the exponent the format asks for. *)
Lemma shr_fexp_result m e l :
  0 ≤ m → e ≤ fexp prec emax (Zdigits2 m + e) →
  shr_m (shr_fexp prec emax m e l).1
  = Z.shiftr m (fexp prec emax (Zdigits2 m + e) - e)
  ∧ (shr_fexp prec emax m e l).2 = fexp prec emax (Zdigits2 m + e).
Proof.
  intros Hm He. unfold shr_fexp, shr.
  destruct (fexp prec emax (Zdigits2 m + e) - e) as [|n|n] eqn:Hn; simpl.
  - rewrite shr_record_of_loc_m. split; [done|lia].
  - rewrite iter_shr_1_shiftr by (by rewrite shr_record_of_loc_m).
    rewrite shr_record_of_loc_m. split; [done|lia].
  - lia.
Qed.

Lemma shr_fexp_zero e l : shr_m (shr_fexp prec emax 0 e l).1 = 0.
Proof.
  unfold shr_fexp, shr.
  destruct (fexp prec emax (Zdigits2 0 + e) - e) as [|n|n]; simpl;
    rewrite ?iter_shr_1_shiftr by (by rewrite shr_record_of_loc_m);
    rewrite shr_record_of_loc_m; [done| |done].
  apply Z.shiftr_0_l.
Qed.

Lemma round_nearest_even_bounds m l :
  m ≤ round_nearest_even m l ≤ m + 1.
Proof. destruct l as [|[]]; simpl; try lia. destruct (Z.even m); lia. Qed.

(** Rounding a positive mantissa whose exponent is not above the one the
    format asks for gives a float in canonical form; and not a zero when
    the mantissa is not shifted out altogether. *)
Lemma binary_round_aux_canonical sx m e l :
  0 < m → e ≤ fexp prec emax (Zdigits2 m + e) →
  valid_binary (binary_round_aux prec emax sx m e l) = true
  ∧ (fexp prec emax (Zdigits2 m + e) - e < Zdigits2 m →
     match binary_round_aux prec emax sx m e l with
     | S754_finite _ _ _ | S754_infinity _ => True
     | _ => False
     end).
Proof.
  intros Hm He. unfold binary_round_aux.
  destruct (shr_fexp_result m e l) as [Hm' He']; [lia|done|].
  destruct (shr_fexp prec emax m e l) as [mrs' e'] eqn:H1. simpl in Hm', He'.
  set (m' := shr_m mrs') in *.
  pose proof (round_nearest_even_bounds m' (loc_of_shr_record mrs')) as Hr.
  set (m1 := round_nearest_even m' (loc_of_shr_record mrs')) in *.
  assert (0 ≤ m') as Hm'0 by (rewrite Hm'; apply Z.shiftr_nonneg; lia).
  pose proof (Zdigits2_log2 m Hm) as Hd.
  pose proof (Z.log2_nonneg m) as Hlog.
  destruct (decide (m1 = 0)) as [H0|H0].
  { rewrite H0. pose proof (shr_fexp_zero e' loc_Exact) as Hz.
    destruct (shr_fexp prec emax 0 e' loc_Exact) as [mrs'' e'']. simpl in Hz.
    rewrite Hz. split; [done|]. intros Hn. exfalso.
    assert (m' = 0) as Hz' by lia. rewrite Hm' in Hz'.
    apply Z.shiftr_eq_0_iff in Hz' as [?|[_ ?]]; lia. }
  assert (e' ≤ fexp prec emax (Zdigits2 m1 + e')
          ∧ (fexp prec emax (Zdigits2 m + e) - e < Zdigits2 m →
             0 < Z.shiftr m1 (fexp prec emax (Zdigits2 m1 + e') - e')))
    as [He1 Hpos].
  { destruct (decide (m' = 0)) as [Hz'|Hz'].
    - assert (m1 = 1) as -> by lia. rewrite Hm' in Hz'.
      apply Z.shiftr_eq_0_iff in Hz' as [?|[_ Hlt]]; [lia|].
      change (Zdigits2 1) with 1. rewrite ?fexp_unfold in *. split; lia.
    - assert (0 < m') as Hp by lia.
      assert (Zdigits2 m' = Zdigits2 m - (e' - e)) as Hd'.
      { rewrite Hm', <- He'. apply Zdigits2_shiftr; [done|lia|].
        rewrite He', <- Hm'. done. }
      pose proof (Zdigits2_mono m' m1 Hp (proj1 Hr)) as Hmono.
      assert (Zdigits2 m1 ≤ Zdigits2 m' + 1) as Hsucc.
      { etrans; [|apply (Zdigits2_succ m' Hp)].
        destruct (decide (m1 = m')) as [->|]; [|apply Zdigits2_mono; lia].
        apply Zdigits2_mono; lia. }
      rewrite ?fexp_unfold in *. split; [lia|]. intros _.
      assert (Z.max (Zdigits2 m1 + e' - 53) (-1074) - e' = 0
              ∨ Z.max (Zdigits2 m1 + e' - 53) (-1074) - e' = 1
                ∧ 2 ≤ Zdigits2 m1) as [->|[-> H2]].
      { pose proof (Zdigits2_log2 m' Hp). pose proof (Z.log2_nonneg m'). lia. }
      + rewrite Z.shiftr_0_r. lia.
      + rewrite Zdigits2_log2 in H2 by lia.
        destruct (Z.shiftr_eq_0_iff m1 1) as [Hz _].
        pose proof (Z.shiftr_nonneg m1 1).
        destruct (decide (Z.shiftr m1 1 = 0)) as [Heq|]; [|lia].
        destruct (Hz Heq) as [?|[_ ?]]; lia. }
  destruct (shr_fexp_result m1 e' loc_Exact) as [Hm2 He2]; [lia|done|].
  destruct (shr_fexp prec emax m1 e' loc_Exact) as [mrs'' e''] eqn:H2.
  simpl in Hm2, He2.
  destruct (shr_m mrs'') as [|p|p] eqn:Hp.
  - split; [done|]. intros Hn. specialize (Hpos Hn). lia.
  - split; [|by destruct (e'' <=? emax - prec)].
    destruct (e'' <=? emax - prec) eqn:Hle; [|done]. simpl.
    unfold bounded, canonical_mantissa. rewrite Hle, andb_true_r.
    apply Z.eqb_eq.
    change (Z.pos (digits2_pos p)) with (Zdigits2 (Z.pos p)).
    rewrite Hm2. rewrite Zdigits2_shiftr; [| lia | lia | lia].
    rewrite <- He2.
    replace (Zdigits2 m1 - (e'' - e') + e'') with (Zdigits2 m1 + e') by lia.
    done.
  - pose proof (Z.shiftr_nonneg m1 (fexp prec emax (Zdigits2 m1 + e') - e')).
    lia.
Qed.

Lemma iter_xO_log2 p d :
  Z.log2 (Z.pos (Pos.iter xO p d)) = Z.log2 (Z.pos p) + Z.pos d.
Proof.
  induction d as [|d IH] using Pos.peano_ind.
  - change (Pos.iter xO p 1) with (p~0)%positive.
    change (Z.pos p~0) with (2 * Z.pos p). rewrite Z.log2_double; lia.
  - rewrite Pos.iter_succ.
    change (Z.pos (Pos.iter xO p d)~0) with (2 * Z.pos (Pos.iter xO p d)).
    rewrite Z.log2_double by lia. lia.
Qed.

Lemma binary_round_canonical sx p e :
  valid_binary (binary_round prec emax sx p e) = true
  ∧ (e = 0 →
     match binary_round prec emax sx p e with
     | S754_finite _ _ _ | S754_infinity _ => True
     | _ => False
     end).
Proof.
  unfold binary_round, shl_align.
  change (Z.pos (digits2_pos p)) with (Zdigits2 (Z.pos p)).
  pose proof (Zdigits2_log2 (Z.pos p) eq_refl) as Hd.
  pose proof (Z.log2_nonneg (Z.pos p)) as Hlog.
  destruct (fexp prec emax (Zdigits2 (Z.pos p) + e) - e) as [|d|d] eqn:Hf.
  - destruct (binary_round_aux_canonical sx (Z.pos p) e loc_Exact)
      as [Hv Hnz]; [done|lia|].
    split; [done|]. intros ->. apply Hnz. lia.
  - destruct (binary_round_aux_canonical sx (Z.pos p) e loc_Exact)
      as [Hv Hnz]; [done|lia|].
    split; [done|]. intros ->. apply Hnz. rewrite ?fexp_unfold in *. lia.
  - assert (Zdigits2 (Z.pos (Pos.iter xO p d)) = Zdigits2 (Z.pos p) + Z.pos d)
      as Hd'.
    { rewrite !Zdigits2_log2 by done. rewrite iter_xO_log2. lia. }
    destruct (binary_round_aux_canonical sx (Z.pos (Pos.iter xO p d))
                (fexp prec emax (Zdigits2 (Z.pos p) + e)) loc_Exact)
      as [Hv Hnz]; [done| |].
    { rewrite Hd'. rewrite ?fexp_unfold in *. lia. }
    split; [done|]. intros _. apply Hnz. rewrite Hd'.
    rewrite ?fexp_unfold in *. lia.
Qed.

Lemma binary_normalize_canonical m e :
  valid_binary (binary_normalize prec emax m e false) = true
  ∧ (m ≠ 0 → e = 0 →
     match binary_normalize prec emax m e false with
     | S754_finite _ _ _ | S754_infinity _ => True
     | _ => False
     end).
Proof.
  destruct m as [|p|p]; simpl.
  - done.
  - destruct (binary_round_canonical false p e) as [Hv Hnz]. split; [done|auto].
  - destruct (binary_round_canonical true p e) as [Hv Hnz]. split; [done|auto].
Qed.

End IntToFloat.

Lemma float_of_int_spec z f :
  float_of_int z = Ok f → Prim2SF f = binary_normalize prec emax z 0 false.
Proof.
  unfold float_of_int.
  destruct (binary_normalize_canonical z 0) as [Hv _].
  set (sf := binary_normalize prec emax z 0 false) in *. clearbody sf.
  intros H. assert (f = SF2Prim sf) as ->.
  { destruct sf; try discriminate H; by injection H as <-. }
  by apply Prim2SF_SF2Prim.
Qed.

Lemma finite_value_nonzero f s m e :
  Prim2SF f = S754_finite s m e → num_eq (PyFloat f) (PyFloat 0) = false.
Proof.
  intros H. unfold num_eq, compare_with. simpl. unfold float_value. rewrite H.
  change (Prim2SF 0) with (S754_zero false). simpl.
  apply bool_decide_eq_false. intros Heq.
  change 0%Qc with (Q2Qc 0) in Heq. apply Q2Qc_eq_iff in Heq.
  apply Qmult_integral in Heq as [Heq|Heq].
  - destruct s; discriminate Heq.
  - by apply Qpower_not_0 in Heq.
Qed.

(** The float of an int is zero only when the int is. *)
Lemma float_of_int_zero z f :
  float_of_int z = Ok f → num_eq (PyFloat f) (PyFloat 0) = (z =? 0)%Z.
Proof.
  intros H. destruct (Z.eqb_spec z 0) as [->|Hz].
  - injection H as <-. by vm_compute.
  - pose proof (float_of_int_spec z f H) as Hs.
    destruct (binary_normalize_canonical z 0) as [_ Hnz].
    specialize (Hnz Hz eq_refl). unfold float_of_int in H.
    destruct (binary_normalize prec emax z 0 false) as [| | |s m e]; try done.
    by apply (finite_value_nonzero f s m e).
Qed.

(** A division by a number other than zero raises nothing but
    [OverflowError]. *)
Lemma num_truediv_raise a b e :
  num_eq b (PyFloat 0) = false → num_truediv a b = Raise e → e = OverflowError.
Proof.
  intros Hb. unfold num_truediv. destruct a as [x|x], b as [y|y]; simpl.
  - rewrite num_eq_int_zero in Hb. rewrite Hb.
    destruct (round_quotient x y); by intros [=].
  - destruct (float_of_int x) as [fx|e'] eqn:Hx; simpl.
    + rewrite Hb. by intros [=].
    + intros [= <-]. by apply (to_float_raise (PyInt x)).
  - destruct (float_of_int y) as [fy|e'] eqn:Hy; simpl.
    + rewrite (float_of_int_zero y fy Hy). rewrite num_eq_int_zero in Hb.
      rewrite Hb. by intros [=].
    + intros [= <-]. by apply (to_float_raise (PyInt y)).
  - rewrite Hb. by intros [=].
Qed.

(** * Dividends *)

(** C6, as amended: the dividend yield is [0.0] when the price equals [0]
    and otherwise the quotient Python computes, of the last dividend by the
    price for a common stock and of the product of the fixed ratio and the
    par value by the price for a preferred stock; with float fields this is
    the IEEE quotient and the call never raises.  It never divides by zero;
    the one exception it can raise is [OverflowError], for an int that is
    too large for a float. *)
Theorem get_dividend_yield_guarded (s : Stock) :
  (num_eq (price s) (PyFloat 0) = true → get_dividend_yield s = Ok (PyFloat 0))
  ∧ (num_eq (price s) (PyFloat 0) = false →
       get_dividend_yield s
       = match variant s with
         | Common last_dividend => num_truediv last_dividend (price s)
         | Preferred fixed_dividend_ratio par_value =>
             obind (num_mul fixed_dividend_ratio par_value) (λ dividend,
               num_truediv dividend (price s))
         end)
  ∧ (∀ d p, variant s = Common (PyFloat d) → price s = PyFloat p →
       get_dividend_yield s
       = Ok (PyFloat (if num_eq (PyFloat p) (PyFloat 0) then 0 else d / p)))
  ∧ (∀ r pv p, variant s = Preferred (PyFloat r) (PyFloat pv) →
       price s = PyFloat p →
       get_dividend_yield s
       = Ok (PyFloat (if num_eq (PyFloat p) (PyFloat 0) then 0 else r * pv / p)))
  ∧ (∀ e, get_dividend_yield s = Raise e → e = OverflowError).
Proof.
  unfold get_dividend_yield, num_ne.
  split; [|split; [|split; [|split]]].
  - intros ->. by destruct (variant s).
  - intros ->. by destruct (variant s).
  - intros d p -> ->. rewrite num_truediv_floats.
    by destruct (num_eq (PyFloat p) (PyFloat 0)).
  - intros r pv p -> ->. change (num_mul (PyFloat r) (PyFloat pv))
      with (Ok (PyFloat (r * pv))). simpl. rewrite num_truediv_floats.
    by destruct (num_eq (PyFloat p) (PyFloat 0)).
  - intros e. destruct (num_eq (price s) (PyFloat 0)) eqn:Hz; simpl.
    { by destruct (variant s). }
    destruct (variant s) as [d|r pv]; [by apply num_truediv_raise|].
    destruct (num_mul r pv) as [x|e'] eqn:Hm; simpl;
      [by apply num_truediv_raise|].
    intros [= <-]. by apply (num_mul_raise r pv).
Qed.

(** C6 as stated fails: a common stock whose last dividend is the int
    [10 ** 400], at price [3], raises [OverflowError]. *)
Lemma get_dividend_yield_overflow :
  get_dividend_yield TEA_huge = Raise OverflowError.
Proof. by vm_compute. Qed.


(** * The volume-weighted price *)

Lemma cutoff_computed now : num_sub (PyFloat now) window = Ok (cutoff now).
Proof. reflexivity. Qed.

Lemma get_volume_weighted_price_scan now s :
  get_volume_weighted_price now s
  = obind (scan (cutoff now) (reverse (trades s)) (PyFloat 0) (PyFloat 0))
      quotient_or_zero.
Proof.
  unfold get_volume_weighted_price. rewrite cutoff_computed. simpl.
  by destruct (scan (cutoff now) (reverse (trades s)) (PyFloat 0) (PyFloat 0))
    as [[n d]|].
Qed.

Lemma time_ordered_reverse log : time_ordered log → newest_first (reverse log).
Proof.
  intros Hs. apply Sorted_reverse in Hs.
  assert (Transitive (λ a b : Trade, num_le (timestamp b) (timestamp a) = true))
    as Htr.
  { intros a b c Hab Hbc. by apply (num_le_trans _ (timestamp b)). }
  by apply Sorted_StronglySorted.
Qed.

Lemma filter_all_old now t l :
  newest_first (t :: l) → num_lt (timestamp t) (cutoff now) = true →
  filter (recent now) l = [].
Proof.
  intros Hs Hold. apply StronglySorted_inv in Hs as [_ Hle].
  induction Hle as [|u l Hu _ IH]; [done|].
  rewrite filter_cons_False; [done|].
  unfold recent. by rewrite (num_le_lt_trans _ _ _ Hu Hold).
Qed.

(** The early exit loses nothing on a log that is newest first: the loop
    accumulates exactly the recent trades. *)
Lemma scan_filter now l :
  newest_first l →
  ∀ n d, scan (cutoff now) l n d = totals (filter (recent now) l) n d.
Proof.
  induction l as [|t l IH]; intros Hs n d; [done|].
  simpl scan. unfold get_timestamp, get_traded_price, get_quantity.
  destruct (num_lt (timestamp t) (cutoff now)) eqn:Hlt.
  - rewrite filter_cons_False by (unfold recent; by rewrite Hlt).
    by rewrite (filter_all_old now t l).
  - rewrite filter_cons_True by done. simpl.
    destruct (num_mul (traded_price t) (quantity t)) as [amount|]; simpl; [|done].
    destruct (num_add n amount) as [n'|]; simpl; [|done].
    destruct (num_add d (quantity t)) as [d'|]; simpl; [|done].
    apply IH. by apply StronglySorted_inv in Hs as [? _].
Qed.

Lemma get_volume_weighted_price_by_filter now s :
  time_ordered (trades s) →
  get_volume_weighted_price now s
  = volume_weighted_price_by_filter now (trades s).
Proof.
  intros Hs. rewrite get_volume_weighted_price_scan.
  unfold volume_weighted_price_by_filter.
  rewrite scan_filter by (by apply time_ordered_reverse).
  by rewrite filter_reverse.
Qed.

(** The accumulators start as floats and stay floats; the loop raises
    nothing but [OverflowError]. *)
Lemma scan_accumulate c l :
  ∀ n d,
    match scan c l (PyFloat n) (PyFloat d) with
    | Ok (n', d') => is_float n' = true ∧ is_float d' = true
    | Raise e => e = OverflowError
    end.
Proof.
  induction l as [|t l IH]; intros n d; [done|].
  simpl. destruct (num_lt (get_timestamp t) c); [done|].
  destruct (num_mul (get_traded_price t) (get_quantity t)) as [amount|e] eqn:Hm;
    simpl; [|by apply (num_mul_raise _ _ _ Hm)].
  pose proof (num_add_to_float n amount) as Hn.
  destruct (num_add (PyFloat n) amount) as [[|n']|e]; simpl; [done| |done].
  pose proof (num_add_to_float d (get_quantity t)) as Hd.
  destruct (num_add (PyFloat d) (get_quantity t)) as [[|d']|e]; simpl;
    [done| |done].
  apply IH.
Qed.

Lemma scan_floats c l :
  Forall (λ t, is_float (traded_price t) = true ∧ is_float (quantity t) = true) l →
  ∀ n d, ∃ n' d', scan c l (PyFloat n) (PyFloat d) = Ok (PyFloat n', PyFloat d').
Proof.
  induction 1 as [|t l [Hp Hq] _ IH]; intros n d; [by eexists _, _|].
  simpl. destruct (num_lt (get_timestamp t) c); [by eexists _, _|].
  unfold get_traded_price, get_quantity.
  destruct (traded_price t) as [|p]; [done|].
  destruct (quantity t) as [|q]; [done|]. apply IH.
Qed.

Lemma quotient_or_zero_floats n d :
  ∃ v, quotient_or_zero (PyFloat n, PyFloat d) = Ok (PyFloat v).
Proof.
  unfold quotient_or_zero, num_ne. simpl. rewrite num_truediv_floats.
  destruct (num_eq (PyFloat d) (PyFloat 0)); by eexists.
Qed.

Lemma get_volume_weighted_price_raises now s e :
  get_volume_weighted_price now s = Raise e → e = OverflowError.
Proof.
  rewrite get_volume_weighted_price_scan.
  pose proof (scan_accumulate (cutoff now) (reverse (trades s)) 0 0) as Hacc.
  destruct (scan (cutoff now) (reverse (trades s)) (PyFloat 0) (PyFloat 0))
    as [[n d]|e']; simpl; [|by intros [= <-]].
  destruct Hacc as [Hn Hd]. destruct n as [|n]; [done|]. destruct d as [|d]; [done|].
  destruct (quotient_or_zero_floats n d) as [v ->]. by intros [=].
Qed.

(** When the lower end of the window is a number and no trade of the log
    is later than [now], the recent trades are the trades within the
    trailing window that ends at [now]. *)
Lemma recent_within_window now log :
  num_le (cutoff now) (cutoff now) = true →
  Forall (λ t, num_le (timestamp t) (PyFloat now) = true) log →
  filter (recent now) log = filter (within_window now) log.
Proof.
  intros Hc. induction 1 as [|t l Ht _ IH]; [done|].
  assert (recent now t ↔ within_window now t) as Hiff.
  { unfold recent, within_window.
    rewrite (num_lt_false_iff_le _ _ (num_le_number _ _ Ht) Hc). tauto. }
  destruct (decide (recent now t)) as [Hin|Hout].
  - rewrite !filter_cons_True by tauto. by rewrite IH.
  - rewrite !filter_cons_False by tauto. done.
Qed.

(** C1, as amended: on a log in execution order the volume-weighted price
    at [now] is what filtering the whole log gives: the running totals of
    price times quantity and of quantity, taken in float arithmetic from
    the most recent trade backwards over exactly the trades whose timestamp
    is not below [now - 10], and then their float quotient, or [0.0] when
    the total quantity is [0], as it is when no trade is that recent.  The
    window has no upper end: the recent trades are those within the window
    that ends at [now] only as long as no trade is later than [now].  The
    call never divides by zero; it raises nothing but [OverflowError], and
    nothing at all when prices and quantities are floats. *)
Theorem get_volume_weighted_price_recent (now : float) (s : Stock) :
  time_ordered (trades s) →
  get_volume_weighted_price now s
  = volume_weighted_price_by_filter now (trades s)
  ∧ (filter (recent now) (trades s) = [] →
       get_volume_weighted_price now s = Ok (PyFloat 0))
  ∧ (num_le (cutoff now) (cutoff now) = true →
     Forall (λ t, num_le (timestamp t) (PyFloat now) = true) (trades s) →
       filter (recent now) (trades s) = filter (within_window now) (trades s))
  ∧ (∀ e, get_volume_weighted_price now s = Raise e → e = OverflowError)
  ∧ (Forall (λ t, is_float (traded_price t) = true ∧ is_float (quantity t) = true)
       (trades s) →
       ∃ v, get_volume_weighted_price now s = Ok (PyFloat v)).
Proof.
  intros Hs. split; [by apply get_volume_weighted_price_by_filter|].
  split; [|split; [|split]].
  - intros Hnone. rewrite get_volume_weighted_price_by_filter by done.
    unfold volume_weighted_price_by_filter. by rewrite Hnone.
  - apply recent_within_window.
  - apply get_volume_weighted_price_raises.
  - intros Hfloats. rewrite get_volume_weighted_price_scan.
    destruct (scan_floats (cutoff now) (reverse (trades s))
                (proj2 (Forall_reverse _ _) Hfloats) 0 0) as (n & d & ->).
    apply quotient_or_zero_floats.
Qed.

(** C1 as stated fails twice.  A trade stamped [100] is counted at time
    [0], when the window that ends at [0] holds no trade: the price is [5]
    and not [0].  And the quotient is a rounded one: a single trade of [3] at
    [15.45] gives [15.449999999999998], below the only price there is. *)
Lemma get_volume_weighted_price_counts_later_trade :
  time_ordered (trades TEA_ahead)
  ∧ filter (within_window 0) (trades TEA_ahead) = []
  ∧ get_volume_weighted_price 0 TEA_ahead = Ok (PyFloat 5)
  ∧ num_eq (PyFloat 5) (PyFloat 0) = false
  ∧ time_ordered (trades GIN_traded)
  ∧ get_volume_weighted_price 0 GIN_traded = Ok (PyFloat 15.449999999999998)
  ∧ num_lt (PyFloat 15.449999999999998) (PyFloat 15.45) = true.
Proof.
  split; [repeat constructor|]. split; [by vm_compute|].
  split; [by vm_compute|]. split; [by vm_compute|].
  split; [repeat constructor|]. split; by vm_compute.
Qed.
(** * The market *)

Lemma register_result stock m :
  register stock m
  = match stocks_by_name m !! name stock with
    | Some _ => (Raise (DuplicateSymbol (name stock)), m)
    | None =>
        (Ok tt, mkMarket (<[name stock := stock]> (stocks_by_name m))
                  (trade_id_counter m))
    end.
Proof.
  unfold register, bind, get, raise, put, with_stocks. simpl.
  destruct (stocks_by_name m !! name stock) eqn:Hl.
  - by rewrite bool_decide_eq_true_2.
  - rewrite bool_decide_eq_false_2; [done|]. by intros [? ?].
Qed.

(** C8: [register] raises [DuplicateSymbol] exactly when the stock's symbol
    is already registered, and then the market, and with it the stock
    registered before, is as it was; otherwise the stock is stored under
    its symbol and every other entry is as before. *)
Theorem register_duplicate (stock : Stock) (m : Market) :
  (is_Some (stocks_by_name m !! name stock)
   ↔ register stock m = (Raise (DuplicateSymbol (name stock)), m))
  ∧ (∀ e m', register stock m = (Raise e, m') →
       e = DuplicateSymbol (name stock) ∧ m' = m
       ∧ is_Some (stocks_by_name m !! name stock))
  ∧ (stocks_by_name m !! name stock = None
     ↔ ∃ m', register stock m = (Ok tt, m'))
  ∧ (∀ m', register stock m = (Ok tt, m') →
       stocks_by_name m' !! name stock = Some stock
       ∧ (∀ k, k ≠ name stock → stocks_by_name m' !! k = stocks_by_name m !! k)
       ∧ trade_id_counter m' = trade_id_counter m).
Proof.
  rewrite register_result.
  destruct (stocks_by_name m !! name stock) as [old|] eqn:Hl.
  - split; [split; [done|by eexists]|].
    split; [by intros e m' [= <- <-]|].
    split; [|by intros m' [=]].
    split; [done|]. by intros [m' [=]].
  - split; [split; [by intros [? ?]|by intros [=]]|].
    split; [by intros e m' [=]|].
    split; [split; [by eexists|done]|].
    intros m' [= <-]. simpl. split; [by rewrite lookup_insert_eq|].
    split; [|done]. intros k Hk. by rewrite lookup_insert_ne.
Qed.

Section MarketFacts.

Variable valid_price : string → num → bool.

Lemma on_stock_add_trade side n q p now m s :
  stocks_by_name m !! n = Some s →
  on_stock n (add_trade valid_price
                (mkTrade (trade_id_counter m) n q side p (PyFloat now))) m
  = if decide (n = name s) then
      if valid_price (name s) p
      then (Ok tt, with_stocks
              (<[n := mkStock (name s) p
                        (trades s ++ [mkTrade (trade_id_counter m) n q side p (PyFloat now)])
                        (variant s)]> (stocks_by_name m)) m)
      else (Raise (InvalidPrice (name s) p), m)
    else (Raise (SymbolMismatch n (name s)), m).
Proof.
  intros Hl. unfold on_stock. rewrite Hl.
  assert (with_stocks (<[n:=s]> (stocks_by_name m)) m = m) as Hid.
  { unfold with_stocks. rewrite insert_id by done. by destruct m. }
  destruct (decide (n = name s)) as [Hn|Hn].
  - destruct (valid_price (name s) p) eqn:Hv.
    + by rewrite add_trade_accept.
    + rewrite add_trade_reject by done. simpl. by rewrite Hid.
  - rewrite add_trade_mismatch by done. simpl. by rewrite Hid.
Qed.

Lemma buy_now_result n q p now m :
  buy_now valid_price n q p now m = trade_outcome valid_price BUY n q p now m.
Proof.
  unfold buy_now, trade_outcome, bind at 1, get at 1. simpl.
  destruct (stocks_by_name m !! n) as [s|] eqn:Hl.
  - rewrite bool_decide_eq_true_2 by done. simpl. unfold bind at 1.
    rewrite (on_stock_add_trade _ _ _ _ _ _ _ Hl).
    destruct (decide (n = name s)); [|done].
    by destruct (valid_price (name s) p).
  - rewrite bool_decide_eq_false_2; [done|]. by intros [? ?].
Qed.

Lemma sell_now_result n q p now m :
  sell_now valid_price n q p now m = trade_outcome valid_price SELL n q p now m.
Proof.
  unfold sell_now, trade_outcome, bind at 1, get at 1. simpl.
  destruct (stocks_by_name m !! n) as [s|] eqn:Hl.
  - rewrite bool_decide_eq_true_2 by done. simpl. unfold bind at 1.
    rewrite (on_stock_add_trade _ _ _ _ _ _ _ Hl).
    destruct (decide (n = name s)); [|done].
    by destruct (valid_price (name s) p).
  - rewrite bool_decide_eq_false_2; [done|]. by intros [? ?].
Qed.

Lemma trade_outcome_raise side n q p now m e m' :
  trade_outcome valid_price side n q p now m = (Raise e, m') → m' = m.
Proof.
  unfold trade_outcome. intros H.
  destruct (stocks_by_name m !! n) as [s|]; [|by simplify_eq].
  destruct (decide (n = name s)); [|by simplify_eq].
  destruct (valid_price (name s) p); by simplify_eq.
Qed.

Lemma trade_outcome_ok side n q p now m m' :
  trade_outcome valid_price side n q p now m = (Ok tt, m') →
  ∃ s, stocks_by_name m !! n = Some s ∧ n = name s
       ∧ valid_price (name s) p = true ∧ m' = traded side n q p now s m.
Proof.
  unfold trade_outcome. intros H.
  destruct (stocks_by_name m !! n) as [s|]; [|by simplify_eq].
  destruct (decide (n = name s)); [|by simplify_eq].
  destruct (valid_price (name s) p) eqn:Hv; [|by simplify_eq].
  exists s. by simplify_eq.
Qed.

End MarketFacts.

(** C10: [buy_now] and [sell_now] have the same outcome on every market and
    every argument: they raise the same exception and then both leave the
    market as it was, or they both succeed and leave the same price, the
    same counter and the same log but for the side of the trade that ends
    it, [BUY] for one and [SELL] for the other. *)
Theorem buy_now_sell_now_alike (valid_price : string → num → bool)
    (n : string) (q p : num) (now : float) (m : Market) :
  (buy_now valid_price n q p now m).1 = (sell_now valid_price n q p now m).1
  ∧ trade_id_counter (buy_now valid_price n q p now m).2
    = trade_id_counter (sell_now valid_price n q p now m).2
  ∧ (∀ e mb, buy_now valid_price n q p now m = (Raise e, mb) →
       mb = m ∧ sell_now valid_price n q p now m = (Raise e, m))
  ∧ (∀ mb, buy_now valid_price n q p now m = (Ok tt, mb) →
       ∃ s, stocks_by_name m !! n = Some s
            ∧ mb = traded BUY n q p now s m
            ∧ sell_now valid_price n q p now m
              = (Ok tt, traded SELL n q p now s m)).
Proof.
  rewrite buy_now_result, sell_now_result. unfold trade_outcome.
  destruct (stocks_by_name m !! n) as [s|] eqn:Hl.
  - destruct (decide (n = name s)).
    + destruct (valid_price (name s) p); simpl.
      * repeat split; try done. intros mb ?. exists s. by simplify_eq.
      * repeat split; try done; intros; by simplify_eq.
    + repeat split; try done; intros; by simplify_eq.
  - repeat split; try done; intros; by simplify_eq.
Qed.

(** * Batch price updates *)

Lemma with_stocks_same k s m :
  stocks_by_name m !! k = Some s →
  with_stocks (<[k := s]> (stocks_by_name m)) m = m.
Proof. intros Hl. unfold with_stocks. rewrite insert_id by done. by destruct m. Qed.

Lemma update_stock_prices_step valid_price k v rest m out :
  update_stock_prices valid_price ((k, v) :: rest) (m, out)
  = match stocks_by_name m !! k with
    | Some s =>
        if valid_price (name s) v
        then update_stock_prices valid_price rest
               (with_stocks (<[k := with_price v s]> (stocks_by_name m)) m, out)
        else (Raise (InvalidPrice (name s) v), (m, out))
    | None =>
        update_stock_prices valid_price rest (m, out ++ [not_found_line k])
    end.
Proof.
  simpl. unfold bind at 1, on_market at 1, get at 1. simpl.
  destruct (stocks_by_name m !! k) as [s|] eqn:Hl.
  - rewrite bool_decide_eq_true_2 by done.
    unfold bind at 1, on_market, on_stock. rewrite Hl.
    destruct (valid_price (name s) v) eqn:Hv.
    + by rewrite set_price_accept.
    + rewrite set_price_reject by done. by rewrite with_stocks_same.
  - rewrite bool_decide_eq_false_2 by (by intros [? ?]). done.
Qed.

Lemma update_stock_prices_counter valid_price new_prices w :
  trade_id_counter (update_stock_prices valid_price new_prices w).2.1
  = trade_id_counter w.1.
Proof.
  revert w. induction new_prices as [|[k v] rest IH]; intros [m out]; [done|].
  rewrite update_stock_prices_step.
  destruct (stocks_by_name m !! k) as [s|]; [|by rewrite IH].
  destruct (valid_price (name s) v); [|done]. by rewrite IH.
Qed.

Lemma warnings_cons_registered m k v rest :
  is_Some (stocks_by_name m !! k) →
  warnings m ((k, v) :: rest) = warnings m rest.
Proof. intros H. unfold warnings. simpl. by rewrite filter_cons_False by auto. Qed.

Lemma warnings_cons_unknown m k v rest :
  stocks_by_name m !! k = None →
  warnings m ((k, v) :: rest) = not_found_line k :: warnings m rest.
Proof.
  intros H. unfold warnings. simpl. rewrite filter_cons_True; [done|].
  rewrite H. by intros [? ?].
Qed.

Lemma warnings_same_symbols m m' new_prices :
  (∀ k, is_Some (stocks_by_name m' !! k) ↔ is_Some (stocks_by_name m !! k)) →
  warnings m' new_prices = warnings m new_prices.
Proof.
  intros H. unfold warnings. f_equal. apply list_filter_iff.
  intros k. by rewrite H.
Qed.

Lemma update_stock_prices_result new_prices :
  ∀ m out, NoDup new_prices.*1 →
  ∃ m',
    update_stock_prices is_valid_price new_prices (m, out)
    = (Ok tt, (m', out ++ warnings m new_prices))
    ∧ trade_id_counter m' = trade_id_counter m
    ∧ (∀ k v s, (k, v) ∈ new_prices → stocks_by_name m !! k = Some s →
         stocks_by_name m' !! k = Some (with_price v s))
    ∧ (∀ k, k ∉ new_prices.*1 → stocks_by_name m' !! k = stocks_by_name m !! k)
    ∧ (∀ k, is_Some (stocks_by_name m' !! k) ↔ is_Some (stocks_by_name m !! k)).
Proof.
  induction new_prices as [|[k v] rest IH]; intros m out Hnd.
  - exists m. simpl. unfold ret, warnings. simpl. rewrite app_nil_r.
    repeat split; try done. intros k v s Hin. by apply elem_of_nil in Hin.
  - simpl in Hnd. apply NoDup_cons in Hnd as [Hk Hnd].
    rewrite update_stock_prices_step.
    destruct (stocks_by_name m !! k) as [s|] eqn:Hl.
    + unfold is_valid_price at 1.
      set (m1 := with_stocks (<[k := with_price v s]> (stocks_by_name m)) m).
      destruct (IH m1 out Hnd) as (m' & Hrun & Hc & Hset & Hrest & Hdom).
      assert (∀ j, is_Some (stocks_by_name m1 !! j) ↔ is_Some (stocks_by_name m !! j))
        as Hdom1.
      { intros j. unfold m1. simpl. destruct (decide (k = j)) as [<-|Hne].
        - rewrite lookup_insert_eq, Hl. split; by eexists.
        - by rewrite lookup_insert_ne. }
      exists m'. rewrite Hrun.
      rewrite warnings_cons_registered by (by rewrite Hl).
      rewrite (warnings_same_symbols m m1) by done.
      split; [done|]. split; [done|]. split; [|split].
      * intros j u t [[= -> ->]|Hin]%elem_of_cons Hj.
        -- rewrite Hrest by done. unfold m1. simpl.
           rewrite lookup_insert_eq. by simplify_eq.
        -- assert (j ≠ k) as Hne.
           { intros ->. apply Hk. apply list_elem_of_fmap. by exists (k, u). }
           apply Hset; [done|]. unfold m1. simpl. by rewrite lookup_insert_ne.
      * intros j Hj. simpl in Hj. apply not_elem_of_cons in Hj as [Hne Hj].
        rewrite Hrest by done. unfold m1. simpl. by rewrite lookup_insert_ne.
      * intros j. by rewrite Hdom.
    + destruct (IH m (out ++ [not_found_line k]) Hnd)
        as (m' & Hrun & Hc & Hset & Hrest & Hdom).
      exists m'. rewrite Hrun, warnings_cons_unknown by done.
      rewrite <- app_assoc. simpl.
      split; [done|]. split; [done|]. split; [|split].
      * intros j u t [[= -> ->]|Hin]%elem_of_cons Hj; [congruence|].
        by apply Hset.
      * intros j Hj. simpl in Hj. apply not_elem_of_cons in Hj as [Hne Hj].
        by apply Hrest.
      * done.
Qed.

(** C7: [update_stock_prices] never raises; it sets the price of every
    registered symbol of the map to the mapped value, prints one line for
    every symbol of the map that is not registered and goes on with the
    entries that follow; stocks the map does not mention, every trade log
    and the trade-id counter are as before, and no stock is added. *)
Theorem update_stock_prices_partial
    (new_prices : list (string * num)) (m : Market) (out : list string) :
  NoDup new_prices.*1 →
  ∃ m',
    update_stock_prices is_valid_price new_prices (m, out)
    = (Ok tt, (m', out ++ warnings m new_prices))
    ∧ (∀ k v s, (k, v) ∈ new_prices → stocks_by_name m !! k = Some s →
         stocks_by_name m' !! k
         = Some (mkStock (name s) v (trades s) (variant s)))
    ∧ (∀ k, k ∈ new_prices.*1 → stocks_by_name m !! k = None →
         not_found_line k ∈ warnings m new_prices
         ∧ stocks_by_name m' !! k = None)
    ∧ (∀ k, k ∉ new_prices.*1 → stocks_by_name m' !! k = stocks_by_name m !! k)
    ∧ (∀ k s s', stocks_by_name m !! k = Some s →
         stocks_by_name m' !! k = Some s' →
         trades s' = trades s ∧ name s' = name s ∧ variant s' = variant s)
    ∧ trade_id_counter m' = trade_id_counter m.
Proof.
  intros Hnd.
  destruct (update_stock_prices_result new_prices m out Hnd)
    as (m' & Hrun & Hc & Hset & Hrest & Hdom).
  exists m'. split; [done|]. split; [done|]. split; [|split; [done|split; [|done]]].
  - intros k Hin Hnone. split.
    + unfold warnings. apply list_elem_of_fmap. exists k. split; [done|].
      apply list_elem_of_filter. split; [|done]. rewrite Hnone. by intros [? ?].
    + destruct (stocks_by_name m' !! k) eqn:Hl'; [|done].
      assert (is_Some (stocks_by_name m !! k)) as [? ?]
        by (apply Hdom; by rewrite Hl'). congruence.
  - intros k s s' Hl Hl'.
    destruct (decide (k ∈ new_prices.*1)) as [Hin|Hout].
    + apply list_elem_of_fmap in Hin as ([k' v] & -> & Hin). simpl in *.
      rewrite (Hset _ _ _ Hin Hl) in Hl'. by simplify_eq.
    + rewrite Hrest, Hl in Hl' by done. by simplify_eq.
Qed.

(** * Trade ids *)

Section CallFacts.

Variable valid_price : string → num → bool.

Lemma traded_recorded side n q p now s m :
  stocks_by_name (traded side n q p now s m) !! n
    ≫= (λ s', last (trades s'))
  = Some (mkTrade (trade_id_counter m) n q side p (PyFloat now)).
Proof. unfold traded. simpl. rewrite lookup_insert_eq. simpl. apply last_snoc. Qed.

Lemma exec_trade_call c w :
  is_trade_call c = true →
  match exec valid_price c w with
  | (Ok _, w') =>
      trade_id_counter w'.1 = (trade_id_counter w.1 + 1)%Z
      ∧ ∃ t, recorded c w' = Some t ∧ trade_id t = trade_id_counter w.1
  | (Raise _, w') => w' = w
  end.
Proof.
  destruct w as [m out]. destruct c as [|n q p now|n q p now|]; try done; intros _.
  - simpl. unfold on_market. rewrite buy_now_result.
    destruct (trade_outcome valid_price BUY n q p now m) as [[[]|e] m'] eqn:Ho.
    + apply trade_outcome_ok in Ho as (s & _ & _ & _ & ->). simpl.
      split; [done|]. eexists. split; [apply traded_recorded|done].
    + apply trade_outcome_raise in Ho as ->. done.
  - simpl. unfold on_market. rewrite sell_now_result.
    destruct (trade_outcome valid_price SELL n q p now m) as [[[]|e] m'] eqn:Ho.
    + apply trade_outcome_ok in Ho as (s & _ & _ & _ & ->). simpl.
      split; [done|]. eexists. split; [apply traded_recorded|done].
    + apply trade_outcome_raise in Ho as ->. done.
Qed.

Lemma exec_other_call c w :
  is_trade_call c = false →
  trade_id_counter (exec valid_price c w).2.1 = trade_id_counter w.1
  ∧ recorded c (exec valid_price c w).2 = None.
Proof.
  destruct w as [m out]. destruct c as [stock| | |new_prices]; try done; intros _.
  - split; [|done]. simpl. unfold on_market. rewrite register_result.
    by destruct (stocks_by_name m !! name stock).
  - split; [|done]. simpl. apply update_stock_prices_counter.
Qed.

Lemma issued_from cs :
  ∀ w,
    trade_id <$> issued valid_price cs w
    = seqZ (trade_id_counter w.1) (Z.of_nat (length (issued valid_price cs w)))
    ∧ trade_id_counter (run valid_price cs w).1
      = (trade_id_counter w.1 + Z.of_nat (length (issued valid_price cs w)))%Z.
Proof.
  induction cs as [|c rest IH]; intros w.
  - simpl. split; [done|lia].
  - simpl. destruct (is_trade_call c) eqn:Hc.
    + pose proof (exec_trade_call c w Hc) as Hex.
      destruct (exec valid_price c w) as [[[]|e] w'] eqn:He; simpl.
      * destruct Hex as (Hcount & t & -> & Hid).
        destruct (IH w') as [Hids Hrun].
        change (trade_id t :: (trade_id <$> issued valid_price rest w')
                = seqZ (trade_id_counter w.1)
                    (Z.of_nat (S (length (issued valid_price rest w'))))
                ∧ trade_id_counter (run valid_price rest w').1
                  = (trade_id_counter w.1
                     + Z.of_nat (S (length (issued valid_price rest w'))))%Z).
        rewrite Hids, Hrun, Hcount, Hid.
        split; [|lia].
        rewrite (seqZ_cons (trade_id_counter w.1)) by lia.
        f_equal. f_equal; lia.
      * subst w'. apply IH.
    + destruct (exec_other_call c w Hc) as [Hcount Hrec].
      destruct (exec valid_price c w) as [r w'] eqn:He. simpl in *.
      rewrite Hrec. replace (if succeeded r then option_list None else [])
        with (@nil Trade) by (by destruct r).
      simpl. rewrite <- Hcount. apply IH.
Qed.

End CallFacts.

(** C5: over any sequence of calls on a fresh market, the trades recorded
    by the successful buys and sells carry the ids 1, 2, 3, ... in the
    order of the calls, and the counter is one more than their number; a
    successful buy or sell records a trade with the counter's value and
    adds one to the counter; a buy or sell that raises, [NotFound]
    included, leaves the counter, and the whole market, as it was. *)
Theorem trade_ids_consecutive (valid_price : string → num → bool) (cs : list call) :
  trade_id <$> issued valid_price cs (Market_init, [])
  = seqZ 1 (Z.of_nat (length (issued valid_price cs (Market_init, []))))
  ∧ trade_id_counter (run valid_price cs (Market_init, [])).1
    = (1 + Z.of_nat (length (issued valid_price cs (Market_init, []))))%Z
  ∧ (∀ c w w', is_trade_call c = true →
       exec valid_price c w = (Ok tt, w') →
       trade_id_counter w'.1 = (trade_id_counter w.1 + 1)%Z
       ∧ ∃ t, recorded c w' = Some t ∧ trade_id t = trade_id_counter w.1)
  ∧ (∀ c w e w', is_trade_call c = true →
       exec valid_price c w = (Raise e, w') →
       trade_id_counter w'.1 = trade_id_counter w.1 ∧ w' = w)
  ∧ (∀ n q p now m,
       stocks_by_name m !! n = None →
       buy_now valid_price n q p now m = (Raise (NotFound n), m)
       ∧ sell_now valid_price n q p now m = (Raise (NotFound n), m)).
Proof.
  split; [apply (issued_from valid_price cs (Market_init, []))|].
  split; [apply (issued_from valid_price cs (Market_init, []))|].
  split; [|split].
  - intros c w w' Hc He. pose proof (exec_trade_call valid_price c w Hc) as H.
    by rewrite He in H.
  - intros c w e w' Hc He. pose proof (exec_trade_call valid_price c w Hc) as H.
    rewrite He in H. by subst.
  - intros n q p now m Hl. rewrite buy_now_result, sell_now_result.
    unfold trade_outcome. by rewrite Hl.
Qed.

(** * The geometric mean *)

Lemma get_price_raises s : get_price s = Raise (AttributeError "get_price").
Proof. unfold get_price, hasattr. by destruct (variant s). Qed.

Lemma product_loop_raises stocks product :
  stocks ≠ [] → product_loop stocks product = Raise (AttributeError "get_price").
Proof. destruct stocks as [|s rest]; [done|]. intros _. simpl. by rewrite get_price_raises. Qed.

(** C2: [get_geometric_mean] raises [InsufficientData] exactly on a market
    without stocks, but on a market with stocks it does not come to the
    root of the product: the loop calls a getter [get_price] that no stock
    class defines, and the call raises [AttributeError]; so it is on the
    market of the demonstration, with prices 34.42 and 15.45. *)
Theorem get_geometric_mean_raises (float_pow : num → num → outcome num) (m : Market) :
  (get_geometric_mean float_pow m = Raise InsufficientData
   ↔ stocks_by_name m = ∅)
  ∧ (stocks_by_name m ≠ ∅ →
       get_geometric_mean float_pow m = Raise (AttributeError "get_price"))
  ∧ get_geometric_mean float_pow demo_market = Raise (AttributeError "get_price").
Proof.
  assert (∀ m', stocks_by_name m' ≠ ∅ →
            get_geometric_mean float_pow m' = Raise (AttributeError "get_price"))
    as Hraise.
  { intros m' Hne. unfold get_geometric_mean.
    assert ((map_to_list (stocks_by_name m')).*2 ≠ []) as Hl.
    { intros Heq. apply fmap_nil_inv in Heq. by apply map_to_list_empty_iff in Heq. }
    rewrite bool_decide_eq_false_2.
    - by rewrite product_loop_raises.
    - intros Hlen. by apply nil_length_inv in Hlen. }
  split; [|split].
  - split.
    + intros Hr. destruct (decide (stocks_by_name m = ∅)) as [|Hne]; [done|].
      rewrite Hraise in Hr by done. discriminate Hr.
    + intros Heq. unfold get_geometric_mean. rewrite Heq, map_to_list_empty. done.
  - apply Hraise.
  - apply Hraise. unfold demo_market. simpl. apply insert_non_empty.
Qed.

(** * The theorems at the inputs of the demonstration *)

Lemma demo_trades_time_ordered : time_ordered (trades TEA_traded).
Proof. repeat constructor. Qed.

Lemma get_volume_weighted_price_recent_demo :
  time_ordered (trades TEA_traded)
  ∧ get_volume_weighted_price 2 TEA_traded
    = volume_weighted_price_by_filter 2 (trades TEA_traded)
  ∧ filter (recent 2) (trades TEA_traded)
    = filter (within_window 2) (trades TEA_traded)
  ∧ ∀ e, get_volume_weighted_price 2 TEA_traded = Raise e → e = OverflowError.
Proof.
  split; [exact demo_trades_time_ordered|].
  destruct (get_volume_weighted_price_recent 2 TEA_traded
              demo_trades_time_ordered) as (Hf & _ & Hw & Hr & _).
  split; [exact Hf|]. split; [|exact Hr].
  apply Hw; [by vm_compute|]. repeat constructor.
Defined.

Lemma update_stock_prices_partial_demo :
  NoDup [("TEA"%string, PyInt 40); ("ZZZ"%string, PyInt 10)].*1
  ∧ ∃ m',
      update_stock_prices is_valid_price
        [("TEA"%string, PyInt 40); ("ZZZ"%string, PyInt 10)]
        (mkMarket {["TEA"%string := TEA]} 1, [])
      = (Ok tt, (m', ["Stock 'ZZZ' not found."%string]))
      ∧ stocks_by_name m' !! "TEA"%string
        = Some (mkStock "TEA" (PyInt 40) [] (Common (PyInt 0))).
Proof.
  assert (NoDup [("TEA"%string, PyInt 40); ("ZZZ"%string, PyInt 10)].*1) as Hnd
    by compute_done.
  split; [exact Hnd|].
  destruct (update_stock_prices_partial
              [("TEA"%string, PyInt 40); ("ZZZ"%string, PyInt 10)]
              (mkMarket {["TEA"%string := TEA]} 1) [] Hnd)
    as (m' & Hrun & Hset & _).
  exists m'. split; [exact Hrun|].
  apply (Hset "TEA"%string (PyInt 40) TEA); [set_solver|done].
Defined.

Lemma add_trade_atomic_demo :
  add_trade nonnegative_price
    (mkTrade 1 "TEA" (PyInt 10) BUY (PyInt (-1)) (PyFloat 0)) TEA
  = (Raise (InvalidPrice "TEA" (PyInt (-1))), TEA)
  ∧ add_trade is_valid_price
      (mkTrade 1 "GIN" (PyInt 10) BUY (PyInt 1) (PyFloat 0)) TEA
    = (Raise (SymbolMismatch "GIN" "TEA"), TEA).
Proof.
  split.
  - destruct (add_trade_atomic nonnegative_price
                (mkTrade 1 "TEA" (PyInt 10) BUY (PyInt (-1)) (PyFloat 0)) TEA)
      as (_ & Hset & _).
    exact (proj1 (Hset eq_refl)).
  - destruct (add_trade_atomic is_valid_price
                (mkTrade 1 "GIN" (PyInt 10) BUY (PyInt 1) (PyFloat 0)) TEA)
      as (Hmis & _).
    apply Hmis. discriminate.
Defined.

Lemma trade_ids_consecutive_demo :
  trade_id <$> issued is_valid_price demo_calls (Market_init, []) = [1; 2]%Z
  ∧ trade_id_counter (run is_valid_price demo_calls (Market_init, [])).1 = 3%Z.
Proof.
  destruct (trade_ids_consecutive is_valid_price demo_calls) as (Hids & Hc & _).
  rewrite Hids, Hc. by vm_compute.
Defined.

Lemma register_duplicate_demo :
  register TEA demo_market = (Raise (DuplicateSymbol "TEA"), demo_market)
  ∧ ∃ m', register GIN (mkMarket {["TEA"%string := TEA]} 1) = (Ok tt, m').
Proof.
  split.
  - apply (register_duplicate TEA demo_market). eexists. by vm_compute.
  - apply (register_duplicate GIN (mkMarket {["TEA"%string := TEA]} 1)).
    by vm_compute.
Defined.

Lemma buy_now_sell_now_alike_demo :
  (buy_now is_valid_price "ZZZ" (PyInt 1) (PyInt 1) 1 demo_market).1
  = (sell_now is_valid_price "ZZZ" (PyInt 1) (PyInt 1) 1 demo_market).1
  ∧ (buy_now is_valid_price "TEA" (PyInt 10) (PyFloat 34.30) 0 demo_market).1
    = (sell_now is_valid_price "TEA" (PyInt 10) (PyFloat 34.30) 0 demo_market).1.
Proof.
  split.
  - apply (buy_now_sell_now_alike is_valid_price "ZZZ").
  - apply (buy_now_sell_now_alike is_valid_price "TEA").
Defined.

(** The demonstration of the module: one trade at time [0] and one at time
    [1]; at time [2] both are recent, at time [11] only the second is, at
    time [12] none is.  The values are the floats Python prints. *)
Example demo_price_at_2 :
  get_volume_weighted_price 2 TEA_traded = Ok (PyFloat 34.233333333333334).
Proof. by vm_compute. Qed.

Example demo_price_at_11 :
  get_volume_weighted_price 11 TEA_traded = Ok (PyFloat 34.2).
Proof. by vm_compute. Qed.

Example demo_price_at_12 :
  get_volume_weighted_price 12 TEA_traded = Ok (PyFloat 0).
Proof. by vm_compute. Qed.

(** The yields [print_sample_dividend_yields] prints for [TEA] and [GIN]. *)
Example demo_yield_TEA : get_dividend_yield TEA = Ok (PyFloat 0).
Proof. by vm_compute. Qed.

Example demo_yield_GIN :
  get_dividend_yield GIN = Ok (PyFloat 0.12944983818770228).
Proof. by vm_compute. Qed.

(** * Looking stocks up *)

Lemma find_result n m :
  find n m
  = match stocks_by_name m !! n with
    | Some s => (Ok s, m)
    | None => (Raise (KeyError n), m)
    end.
Proof. unfold find, bind, get. simpl. by destruct (stocks_by_name m !! n). Qed.

(** X1: once [register] has succeeded, [find] under the stock's symbol
    returns that very stock, [find] under any other symbol answers as it
    did before, a symbol that is not registered raises [KeyError], and
    [find] leaves the market as it is. *)
Theorem find_after_register (stock : Stock) (m m' : Market) :
  register stock m = (Ok tt, m') →
  find (name stock) m' = (Ok stock, m')
  ∧ (∀ k, k ≠ name stock → (find k m').1 = (find k m).1)
  ∧ (∀ k, stocks_by_name m' !! k = None → find k m' = (Raise (KeyError k), m'))
  ∧ (∀ k, (find k m').2 = m').
Proof.
  rewrite register_result.
  destruct (stocks_by_name m !! name stock) eqn:Hl; [done|].
  intros [= <-]. split; [|split; [|split]].
  - rewrite find_result. simpl. by rewrite lookup_insert_eq.
  - intros k Hk. rewrite !find_result. simpl. rewrite lookup_insert_ne by done.
    by destruct (stocks_by_name m !! k).
  - intros k Hk. rewrite find_result. by rewrite Hk.
  - intros k. rewrite find_result.
    by destruct (stocks_by_name _ !! k).
Qed.

Lemma find_after_register_demo :
  register GIN (mkMarket {["TEA"%string := TEA]} 1)
  = (Ok tt, demo_market)
  ∧ find "GIN" demo_market = (Ok GIN, demo_market).
Proof.
  assert (register GIN (mkMarket {["TEA"%string := TEA]} 1)
          = (Ok tt, demo_market)) as Hreg.
  { rewrite register_result. by vm_compute. }
  split; [exact Hreg|].
  apply (find_after_register GIN _ _ Hreg).
Defined.

(** * Equality and order of stocks *)

(** X2: two stocks compare equal exactly when they are of the same class
    and carry the same symbol, whatever their prices, logs and dividends;
    so a stock stays equal to itself across price updates and trades, and a
    common and a preferred stock are never equal.  The identity test can
    only hold between a stock and itself. *)
Theorem Stock_eq_same_class_and_symbol (same : bool) (a b : Stock) :
  (same = true → a = b) →
  (Stock_eq same a b = true ↔ is_common a = is_common b ∧ name a = name b)
  ∧ Stock_eq same a b = Stock_eq same b a
  ∧ (∀ p, Stock_eq false a (with_price p a) = true)
  ∧ (∀ valid_price t a', add_trade valid_price t a = (Ok tt, a') →
       Stock_eq false a a' = true)
  ∧ (is_common a = true → is_preferred b = true → Stock_eq same a b = false).
Proof.
  intros Hsame. unfold Stock_eq, is_common, is_preferred.
  split; [|split; [|split; [|split]]].
  - destruct same.
    + rewrite Hsame by done. destruct (variant b); by split.
    + destruct (variant a), (variant b); simpl;
        rewrite ?bool_decide_eq_true; intuition congruence.
  - destruct same.
    + rewrite Hsame by done. done.
    + destruct (variant a), (variant b); simpl; try done;
        apply bool_decide_ext; naive_solver.
  - intros p. simpl. destruct (variant a); simpl; by rewrite bool_decide_eq_true.
  - intros valid_price t a' Hadd.
    assert (name a' = name a ∧ variant a' = variant a) as [Hn Hv].
    { destruct (decide (stock_name t = name a)) as [Hn|Hn].
      - destruct (valid_price (name a) (traded_price t)) eqn:Hval.
        + rewrite add_trade_accept in Hadd by done. by simplify_eq.
        + rewrite add_trade_reject in Hadd by done. by simplify_eq.
      - rewrite add_trade_mismatch in Hadd by done. by simplify_eq. }
    rewrite Hv, Hn. destruct (variant a); simpl; by rewrite bool_decide_eq_true.
  - intros Ha Hb. destruct same.
    + rewrite Hsame in Ha by done. destruct (variant b); done.
    + destruct (variant a), (variant b); done.
Qed.

Lemma Stock_eq_same_class_and_symbol_demo :
  Stock_eq false TEA TEA_traded = true ∧ Stock_eq false TEA GIN = false.
Proof.
  split.
  - apply (Stock_eq_same_class_and_symbol false TEA TEA_traded); done.
  - apply (Stock_eq_same_class_and_symbol false TEA GIN); done.
Defined.

Lemma string_compare_refl s : (s ?= s)%string = Eq.
Proof.
  pose proof (String.compare_antisym s s) as H.
  by destruct (s ?= s)%string.
Qed.

Lemma ascii_compare_lt_trans a b c :
  (a ?= b)%char = Lt → (b ?= c)%char = Lt → (a ?= c)%char = Lt.
Proof.
  unfold Ascii.compare. rewrite !N.compare_lt_iff. lia.
Qed.

Lemma string_compare_lt_trans s1 :
  ∀ s2 s3, (s1 ?= s2)%string = Lt → (s2 ?= s3)%string = Lt →
           (s1 ?= s3)%string = Lt.
Proof.
  induction s1 as [|c1 s1 IH]; intros [|c2 s2] [|c3 s3]; simpl; try done.
  destruct (c1 ?= c2)%char eqn:H12; try done;
    destruct (c2 ?= c3)%char eqn:H23; try done; intros Ha Hb.
  - apply Ascii.compare_eq_iff in H12 as ->, H23 as ->.
    replace (c3 ?= c3)%char with Eq
      by (symmetry; unfold Ascii.compare; apply N.compare_refl).
    by eapply IH.
  - apply Ascii.compare_eq_iff in H12 as ->. by rewrite H23.
  - apply Ascii.compare_eq_iff in H23 as <-. by rewrite H12.
  - by rewrite (ascii_compare_lt_trans _ _ _ H12 H23).
Qed.

(** X3: [<] on stocks is a strict total order of their symbols: no stock
    is below itself, the order is transitive and asymmetric, two stocks
    with different symbols are ordered one way or the other, and prices,
    logs and dividends play no part. *)
Theorem Stock_lt_strict_total_order :
  (∀ a, Stock_lt a a = false)
  ∧ (∀ a b c, Stock_lt a b = true → Stock_lt b c = true → Stock_lt a c = true)
  ∧ (∀ a b, Stock_lt a b = true → Stock_lt b a = false)
  ∧ (∀ a b, name a ≠ name b → Stock_lt a b = true ∨ Stock_lt b a = true)
  ∧ (∀ a b, name a = name b → Stock_lt a b = false ∧ Stock_lt b a = false)
  ∧ (∀ a b a' b', name a' = name a → name b' = name b →
       Stock_lt a' b' = Stock_lt a b).
Proof.
  unfold Stock_lt, String.ltb.
  split; [|split; [|split; [|split; [|split]]]].
  - intros a. by rewrite string_compare_refl.
  - intros a b c Hab Hbc.
    destruct (name a ?= name b)%string eqn:H1; try done.
    destruct (name b ?= name c)%string eqn:H2; try done.
    by rewrite (string_compare_lt_trans _ _ _ H1 H2).
  - intros a b Hab. rewrite (String.compare_antisym (name b) (name a)).
    by destruct (name a ?= name b)%string.
  - intros a b Hne. rewrite (String.compare_antisym (name b) (name a)).
    destruct (name a ?= name b)%string eqn:H1; simpl; auto.
    by apply String.compare_eq_iff in H1.
  - intros a b Heq. rewrite Heq. by rewrite string_compare_refl.
  - intros a b a' b' -> ->. done.
Qed.

(** * Dividends after a change *)

Lemma yield_by_price s :
  get_dividend_yield s
  = if num_ne (price s) (PyFloat 0)
    then match variant s with
         | Common d => num_truediv d (price s)
         | Preferred r pv =>
             obind (num_mul r pv) (λ dividend, num_truediv dividend (price s))
         end
    else Ok (PyFloat 0).
Proof.
  unfold get_dividend_yield.
  by destruct (variant s), (num_ne (price s) (PyFloat 0)).
Qed.

(** X4: a setter of one class raises [AttributeError] on a stock of the
    other class and leaves it as it was; on its own class it changes the
    one field and the yield follows: [0.0] at price [0], otherwise Python's
    quotient of the new last dividend by the price for a common stock, and
    of the product of the new ratio and the new par value by the price for
    a preferred stock, the two setters of a preferred stock giving the same
    stock in either order. *)
Theorem setters_then_yield (d r pv : num) (s : Stock) :
  match variant s with
  | Common _ =>
      (set_last_dividend d ;;; (self <~ get ;; ret (get_dividend_yield self))) s
      = (Ok (if num_ne (price s) (PyFloat 0) then num_truediv d (price s)
             else Ok (PyFloat 0)),
         mkStock (name s) (price s) (trades s) (Common d))
      ∧ set_fixed_dividend_ratio r s
        = (Raise (AttributeError "set_fixed_dividend_ratio"), s)
      ∧ set_par_value pv s = (Raise (AttributeError "set_par_value"), s)
  | Preferred _ _ =>
      (set_fixed_dividend_ratio r ;;; set_par_value pv ;;;
       (self <~ get ;; ret (get_dividend_yield self))) s
      = (Ok (if num_ne (price s) (PyFloat 0)
             then obind (num_mul r pv) (λ dividend, num_truediv dividend (price s))
             else Ok (PyFloat 0)),
         mkStock (name s) (price s) (trades s) (Preferred r pv))
      ∧ (set_par_value pv ;;; set_fixed_dividend_ratio r) s
        = (set_fixed_dividend_ratio r ;;; set_par_value pv) s
      ∧ set_last_dividend d s = (Raise (AttributeError "set_last_dividend"), s)
  end.
Proof.
  unfold set_last_dividend, set_fixed_dividend_ratio, set_par_value,
    bind, get, put, ret, raise, with_variant.
  destruct (variant s) eqn:Hv; simpl; rewrite ?Hv; simpl.
  - split; [|done]. by rewrite yield_by_price.
  - split; [|done]. by rewrite yield_by_price.
Qed.

(** X5: after a trade is accepted the dividend yield is taken on the
    traded price: [0.0] when the stock traded at [0], otherwise Python's
    quotient of the last dividend, or of the product of the ratio and the
    par value, by that price. *)
Theorem dividend_yield_after_trade
    (valid_price : string → num → bool) (t : Trade) (s s' : Stock) :
  add_trade valid_price t s = (Ok tt, s') →
  get_dividend_yield s'
  = if num_ne (traded_price t) (PyFloat 0)
    then match variant s with
         | Common d => num_truediv d (traded_price t)
         | Preferred r pv =>
             obind (num_mul r pv) (λ dividend,
               num_truediv dividend (traded_price t))
         end
    else Ok (PyFloat 0).
Proof.
  intros Hadd.
  assert (s' = mkStock (name s) (traded_price t) (trades s ++ [t]) (variant s))
    as ->.
  { destruct (decide (stock_name t = name s)) as [Hn|Hn].
    - destruct (valid_price (name s) (traded_price t)) eqn:Hval.
      + rewrite add_trade_accept in Hadd by done. by simplify_eq.
      + rewrite add_trade_reject in Hadd by done. by simplify_eq.
    - rewrite add_trade_mismatch in Hadd by done. by simplify_eq. }
  by rewrite yield_by_price.
Qed.

Lemma dividend_yield_after_trade_demo :
  add_trade is_valid_price
    (mkTrade 1 "GIN" (PyInt 10) BUY (PyFloat 16) (PyFloat 0)) GIN
  = (Ok tt, mkStock "GIN" (PyFloat 16)
              [mkTrade 1 "GIN" (PyInt 10) BUY (PyFloat 16) (PyFloat 0)]
              (Preferred (PyFloat 0.02) (PyInt 100)))
  ∧ get_dividend_yield
      (mkStock "GIN" (PyFloat 16)
         [mkTrade 1 "GIN" (PyInt 10) BUY (PyFloat 16) (PyFloat 0)]
         (Preferred (PyFloat 0.02) (PyInt 100)))
    = Ok (PyFloat 0.125).
Proof.
  assert (add_trade is_valid_price
            (mkTrade 1 "GIN" (PyInt 10) BUY (PyFloat 16) (PyFloat 0)) GIN
          = (Ok tt, mkStock "GIN" (PyFloat 16)
                      [mkTrade 1 "GIN" (PyInt 10) BUY (PyFloat 16) (PyFloat 0)]
                      (Preferred (PyFloat 0.02) (PyInt 100)))) as Hadd
    by (by rewrite add_trade_accept).
  split; [exact Hadd|].
  rewrite (dividend_yield_after_trade _ _ _ _ Hadd). by vm_compute.
Defined.

(** * Where the backward scan stops *)


(** As long as the trades are recent the loop accumulates them. *)
Lemma scan_app_recent c l rest :
  Forall (λ t, num_lt (timestamp t) c = false) l →
  ∀ n d, scan c (l ++ rest) n d
         = obind (totals l n d) (λ acc, scan c rest acc.1 acc.2).
Proof.
  induction 1 as [|t l Ht _ IH]; intros n d; [done|].
  simpl. unfold get_timestamp, get_traded_price, get_quantity. rewrite Ht.
  destruct (num_mul (traded_price t) (quantity t)) as [amount|]; simpl; [|done].
  destruct (num_add n amount) as [n'|]; simpl; [|done].
  destruct (num_add d (quantity t)) as [d'|]; simpl; [|done].
  apply IH.
Qed.

(** X6: in whatever order the log is, the backward scan stops at the
    first trade it meets that is too old, and nothing before that trade in
    the log is counted, recent or not: the volume-weighted price is that of
    the trades after the last too-old trade, and [0.0] when the log is empty
    or its last trade is too old. *)
Theorem volume_weighted_price_after_old_trade (now : float) (s : Stock) :
  (trades s = [] → get_volume_weighted_price now s = Ok (PyFloat 0))
  ∧ (∀ l1 t l2,
       trades s = l1 ++ t :: l2 →
       num_lt (timestamp t) (cutoff now) = true →
       Forall (recent now) l2 →
       get_volume_weighted_price now s
       = obind (totals (reverse l2) (PyFloat 0) (PyFloat 0)) quotient_or_zero)
  ∧ (∀ l1 t,
       trades s = l1 ++ [t] →
       num_lt (timestamp t) (cutoff now) = true →
       get_volume_weighted_price now s = Ok (PyFloat 0)).
Proof.
  assert (∀ l1 t l2,
            trades s = l1 ++ t :: l2 →
            num_lt (timestamp t) (cutoff now) = true →
            Forall (recent now) l2 →
            get_volume_weighted_price now s
            = obind (totals (reverse l2) (PyFloat 0) (PyFloat 0))
                quotient_or_zero) as Hstop.
  { intros l1 t l2 Hlog Hold Hrecent.
    rewrite get_volume_weighted_price_scan, Hlog.
    rewrite reverse_app, reverse_cons, <- app_assoc.
    rewrite scan_app_recent by (by apply Forall_reverse).
    destruct (totals (reverse l2) (PyFloat 0) (PyFloat 0)) as [[n d]|]; [|done].
    simpl. unfold get_timestamp. by rewrite Hold. }
  split; [|split; [done|]].
  - intros Hnil. rewrite get_volume_weighted_price_scan, Hnil. done.
  - intros l1 t Hlog Hold. by rewrite (Hstop l1 t [] Hlog Hold).
Qed.

(** A recent trade that comes before an old one in the log is not
    counted. *)
Example old_trade_hides_earlier_ones :
  get_volume_weighted_price 105
    (mkStock "TEA" (PyFloat 7)
       [mkTrade 1 "TEA" (PyFloat 1) BUY (PyFloat 5) (PyFloat 100);
        mkTrade 2 "TEA" (PyFloat 1) BUY (PyFloat 6) (PyFloat 0);
        mkTrade 3 "TEA" (PyFloat 1) BUY (PyFloat 7) (PyFloat 100)]
       (Common (PyInt 0)))
  = Ok (PyFloat 7).
Proof. by vm_compute. Qed.

(** * The price after a trade *)






(** * More on batch price updates *)

(** X9: a batch in two parts is the first part followed by the second: the
    second part runs on what the first left, and not at all when the first
    raised. *)
Theorem update_stock_prices_app
    (valid_price : string → num → bool) (l1 l2 : list (string * num)) (w : World) :
  update_stock_prices valid_price (l1 ++ l2) w
  = match update_stock_prices valid_price l1 w with
    | (Ok _, w1) => update_stock_prices valid_price l2 w1
    | (Raise e, w1) => (Raise e, w1)
    end.
Proof.
  revert w. induction l1 as [|[k v] l1 IH]; intros [m out]; [done|].
  rewrite <- app_comm_cons, !update_stock_prices_step.
  destruct (stocks_by_name m !! k) as [s|]; [|apply IH].
  destruct (valid_price (name s) v); [apply IH|done].
Qed.

(** X11: with the program's validation a batch can be applied again
    without effect on the market: the second run leaves every stock and the
    counter as the first run left them and only prints the same warnings
    once more. *)
Theorem update_stock_prices_idempotent
    (new_prices : list (string * num)) (m : Market) (out : list string) :
  NoDup new_prices.*1 →
  ∃ m',
    update_stock_prices is_valid_price new_prices (m, out)
    = (Ok tt, (m', out ++ warnings m new_prices))
    ∧ ∀ out',
        update_stock_prices is_valid_price new_prices (m', out')
        = (Ok tt, (m', out' ++ warnings m new_prices)).
Proof.
  intros Hnd.
  destruct (update_stock_prices_result new_prices m out Hnd)
    as (m' & Hrun & Hc & Hset & Hrest & Hdom).
  exists m'. split; [done|]. intros out'.
  destruct (update_stock_prices_result new_prices m' out' Hnd)
    as (m'' & Hrun' & Hc' & Hset' & Hrest' & Hdom').
  rewrite Hrun', (warnings_same_symbols m m') by done.
  assert (m'' = m') as ->; [|done].
  destruct m'' as [d'' c''], m' as [d' c']. simpl in *. f_equal; [|done].
  apply map_eq. intros k.
  destruct (decide (k ∈ new_prices.*1)) as [Hin|Hout]; [|by apply Hrest'].
  apply list_elem_of_fmap in Hin as ([k' v] & -> & Hin). simpl.
  destruct (stocks_by_name m !! k') as [s|] eqn:Hl.
  - rewrite (Hset' k' v (with_price v s) Hin (Hset k' v s Hin Hl)).
    by rewrite (Hset k' v s Hin Hl).
  - assert (d' !! k' = None) as Hn'.
    { destruct (d' !! k') eqn:Hl'; [|done].
      assert (is_Some (stocks_by_name m !! k')) as [? ?]
        by (apply Hdom; by rewrite Hl'). congruence. }
    rewrite Hn'. destruct (d'' !! k') eqn:Hl''; [|done].
    assert (is_Some (d' !! k')) as [? ?] by (apply Hdom'; by rewrite Hl'').
    congruence.
Qed.

Lemma update_stock_prices_idempotent_demo :
  NoDup [("TEA"%string, PyInt 40); ("ZZZ"%string, PyInt 10)].*1
  ∧ ∃ m',
      update_stock_prices is_valid_price
        [("TEA"%string, PyInt 40); ("ZZZ"%string, PyInt 10)] (demo_market, [])
      = (Ok tt, (m', ["Stock 'ZZZ' not found."%string]))
      ∧ update_stock_prices is_valid_price
          [("TEA"%string, PyInt 40); ("ZZZ"%string, PyInt 10)] (m', [])
        = (Ok tt, (m', ["Stock 'ZZZ' not found."%string])).
Proof.
  assert (NoDup [("TEA"%string, PyInt 40); ("ZZZ"%string, PyInt 10)].*1) as Hnd
    by compute_done.
  split; [exact Hnd|].
  destruct (update_stock_prices_idempotent
              [("TEA"%string, PyInt 40); ("ZZZ"%string, PyInt 10)]
              demo_market [] Hnd) as (m' & Hrun & Hagain).
  exists m'. split; [exact Hrun|]. exact (Hagain []).
Defined.

(** * What every run keeps *)

Section RunFacts.

Variable valid_price : string → num → bool.

Lemma update_stock_prices_frame new_prices :
  ∀ w k s',
    stocks_by_name (update_stock_prices valid_price new_prices w).2.1 !! k = Some s' →
    ∃ s, stocks_by_name w.1 !! k = Some s
         ∧ trades s' = trades s ∧ name s' = name s ∧ variant s' = variant s.
Proof.
  induction new_prices as [|[k0 v] rest IH]; intros [m out] k s' Hl'.
  - by exists s'.
  - rewrite update_stock_prices_step in Hl'.
    destruct (stocks_by_name m !! k0) as [s0|] eqn:Hl0; [|by apply IH in Hl'].
    destruct (valid_price (name s0) v); [|by exists s'].
    apply IH in Hl' as (s1 & Hl1 & Ht & Hn & Hv). simpl in Hl1.
    destruct (decide (k0 = k)) as [->|Hne].
    + rewrite lookup_insert_eq in Hl1. injection Hl1 as <-. by exists s0.
    + rewrite lookup_insert_ne in Hl1 by done. by exists s1.
Qed.

(** What one call does to the stock under a key: nothing to its log and
    symbol, or the stock was just registered, or the call's trade was
    appended to its log and the counter stepped. *)
Lemma exec_stock_step c w k s' :
  stocks_by_name (exec valid_price c w).2.1 !! k = Some s' →
  (∃ s, stocks_by_name w.1 !! k = Some s
        ∧ trades s' = trades s ∧ name s' = name s)
  ∨ (c = CallRegister s' ∧ k = name s')
  ∨ (∃ s t, stocks_by_name w.1 !! k = Some s
            ∧ call_symbol c = Some k
            ∧ trade_of_call (trade_id_counter w.1) c = Some t
            ∧ trades s' = trades s ++ [t] ∧ name s' = name s ∧ name s = k
            ∧ trade_id_counter (exec valid_price c w).2.1
              = (trade_id_counter w.1 + 1)%Z).
Proof.
  destruct w as [m out].
  assert (∀ side n q p now,
            stocks_by_name (trade_outcome valid_price side n q p now m).2 !! k
            = Some s' →
            (∃ s, stocks_by_name m !! k = Some s
                  ∧ trades s' = trades s ∧ name s' = name s)
            ∨ (∃ s, stocks_by_name m !! k = Some s ∧ n = k
                    ∧ trades s' = trades s ++ [mkTrade (trade_id_counter m) n q side p (PyFloat now)]
                    ∧ name s' = name s ∧ name s = k
                    ∧ trade_id_counter (trade_outcome valid_price side n q p now m).2
                      = (trade_id_counter m + 1)%Z)) as Htrade.
  { intros side n q p now. unfold trade_outcome.
    destruct (stocks_by_name m !! n) as [s|] eqn:Hl; [|left; by exists s'].
    destruct (decide (n = name s)) as [Hn|Hn]; [|left; by exists s'].
    destruct (valid_price (name s) p); [|left; by exists s'].
    simpl. destruct (decide (n = k)) as [<-|Hne].
    - rewrite lookup_insert_eq. intros [= <-]. right. by exists s.
    - rewrite lookup_insert_ne by done. left. by exists s'. }
  destruct c as [stock|n q p now|n q p now|new_prices]; simpl.
  - unfold on_market. rewrite register_result.
    destruct (stocks_by_name m !! name stock) eqn:Hl; simpl.
    + left. by exists s'.
    + destruct (decide (name stock = k)) as [<-|Hne].
      * rewrite lookup_insert_eq. intros [= <-]. right. by left.
      * rewrite lookup_insert_ne by done. left. by exists s'.
  - unfold on_market. rewrite buy_now_result. intros Hl'.
    destruct (trade_outcome valid_price BUY n q p now m) as [r m'] eqn:Ho.
    specialize (Htrade BUY n q p now). rewrite Ho in Htrade.
    destruct (Htrade Hl') as [?|(s & ? & -> & ? & ? & ? & ?)]; [by left|].
    right. right. by exists s, (mkTrade (trade_id_counter m) k q BUY p (PyFloat now)).
  - unfold on_market. rewrite sell_now_result. intros Hl'.
    destruct (trade_outcome valid_price SELL n q p now m) as [r m'] eqn:Ho.
    specialize (Htrade SELL n q p now). rewrite Ho in Htrade.
    destruct (Htrade Hl') as [?|(s & ? & -> & ? & ? & ? & ?)]; [by left|].
    right. right. by exists s, (mkTrade (trade_id_counter m) k q SELL p (PyFloat now)).
  - intros Hl'. apply update_stock_prices_frame in Hl' as (s & ? & ? & ? & _).
    left. by exists s.
Qed.

Lemma exec_counter_mono c w :
  (trade_id_counter w.1 ≤ trade_id_counter (exec valid_price c w).2.1)%Z.
Proof.
  destruct (is_trade_call c) eqn:Hc.
  - pose proof (exec_trade_call valid_price c w Hc) as H.
    destruct (exec valid_price c w) as [[[]|e] w']; simpl.
    + destruct H as [-> _]. lia.
    + by subst.
  - destruct (exec_other_call valid_price c w Hc) as [-> _]. done.
Qed.

Lemma exec_keys_are_names c w :
  keys_are_names w.1 → keys_are_names (exec valid_price c w).2.1.
Proof.
  intros Hinv k s' Hl'.
  destruct (exec_stock_step c w k s' Hl')
    as [(s & Hl & _ & Hn)|[[_ ->]|(s & t & _ & _ & _ & _ & Hn & Hk & _)]].
  - rewrite Hn. by apply Hinv.
  - done.
  - by rewrite Hn.
Qed.

Lemma run_keys_are_names cs :
  ∀ w, keys_are_names w.1 → keys_are_names (run valid_price cs w).1.
Proof.
  induction cs as [|c rest IH]; intros w Hinv; [done|].
  simpl. apply IH. by apply exec_keys_are_names.
Qed.

End RunFacts.

(** X12: whatever calls were made on a fresh market, every stock is stored
    under its own symbol; hence a buy or a sell through the market never
    raises [SymbolMismatch]: it raises [NotFound] for a symbol that is not
    registered, [InvalidPrice] when the rule rejects the price, and succeeds
    otherwise. *)
Theorem reachable_market_keys
    (valid_price : string → num → bool) (cs : list call)
    (n : string) (q p : num) (now : float) :
  keys_are_names (run valid_price cs (Market_init, [])).1
  ∧ (buy_now valid_price n q p now (run valid_price cs (Market_init, [])).1).1
    = match stocks_by_name (run valid_price cs (Market_init, [])).1 !! n with
      | None => Raise (NotFound n)
      | Some _ => if valid_price n p then Ok tt else Raise (InvalidPrice n p)
      end
  ∧ (sell_now valid_price n q p now (run valid_price cs (Market_init, [])).1).1
    = (buy_now valid_price n q p now (run valid_price cs (Market_init, [])).1).1.
Proof.
  assert (keys_are_names (run valid_price cs (Market_init, [])).1) as Hinv.
  { apply run_keys_are_names. intros k s Hl. simpl in Hl.
    by rewrite lookup_empty in Hl. }
  split; [done|].
  rewrite buy_now_result, sell_now_result. unfold trade_outcome.
  destruct (stocks_by_name (run valid_price cs (Market_init, [])).1 !! n)
    as [s|] eqn:Hl; [|done].
  rewrite (Hinv n s Hl). rewrite !decide_True by done.
  destruct (valid_price n p); by split.
Qed.

(** * Logs in execution order *)

Lemma time_ordered_snoc log t :
  time_ordered log →
  Forall (λ u, num_le (timestamp u) (timestamp t) = true) log →
  time_ordered (log ++ [t]).
Proof.
  unfold time_ordered. intros Hs Hall. apply Sorted_snoc; [done|]. clear Hs.
  induction log as [|b log' _] using rev_ind; constructor.
  apply Forall_app in Hall as [_ Hb]. by apply Forall_inv in Hb.
Qed.

Lemma fresh_registrations_cons c cs :
  fresh_registrations (c :: cs) →
  (∀ stock, c = CallRegister stock → trades stock = [])
  ∧ fresh_registrations cs.
Proof.
  intros H. split.
  - intros stock ->. apply H. by left.
  - intros stock Hin. apply H. by right.
Qed.

Lemma float_le_trans a b c :
  float_le a b = true → float_le b c = true → float_le a c = true.
Proof. apply num_le_trans. Qed.

Section RunOrder.

Variable valid_price : string → num → bool.

Lemma exec_logs_ordered c w T T' :
  logs_ordered_until T w.1 →
  (∀ stock, c = CallRegister stock → trades stock = []) →
  float_le T T' = true →
  float_le T' T' = true →
  (∀ now, call_time c = Some now → now = T') →
  logs_ordered_until T' (exec valid_price c w).2.1.
Proof.
  intros Hinv Hfresh HT HT' Hnow k s' Hl'.
  assert (∀ l, Forall (λ u, num_le (timestamp u) (PyFloat T) = true) l →
               Forall (λ u, num_le (timestamp u) (PyFloat T') = true) l) as Hup.
  { intros l Hb. eapply Forall_impl; [exact Hb|]. intros u Hu.
    by apply (num_le_trans _ (PyFloat T)). }
  destruct (exec_stock_step valid_price c w k s' Hl')
    as [(s & Hl & Ht & _)|[[-> _]|(s & t & Hl & _ & Htr & Ht & _)]].
  - rewrite Ht. destruct (Hinv k s Hl) as [Hs Hb]. split; [done|]. by apply Hup.
  - rewrite (Hfresh s' eq_refl). split; constructor.
  - destruct (Hinv k s Hl) as [Hs Hb]. rewrite Ht.
    assert (timestamp t = PyFloat T') as Hts.
    { destruct c; simpl in Htr; try done; injection Htr as <-; simpl;
        f_equal; by apply Hnow. }
    split.
    + apply time_ordered_snoc; [done|]. rewrite Hts. by apply Hup.
    + apply Forall_app. split; [by apply Hup|].
      repeat constructor. by rewrite Hts.
Qed.

Lemma run_logs_ordered cs :
  ∀ w T,
    logs_ordered_until T w.1 →
    fresh_registrations cs →
    float_le T T = true →
    Forall (λ now, float_le T now = true) (omap call_time cs) →
    Forall (λ now, float_le now now = true) (omap call_time cs) →
    StronglySorted (λ a b, float_le a b = true) (omap call_time cs) →
    ∃ T', logs_ordered_until T' (run valid_price cs w).1.
Proof.
  induction cs as [|c rest IH]; intros w T Hinv Hfresh HTT Hge Hnum Hsorted.
  - by exists T.
  - apply fresh_registrations_cons in Hfresh as [Hc Hfresh]. simpl.
    destruct (call_time c) as [now|] eqn:Hnow.
    + assert (omap call_time (c :: rest) = now :: omap call_time rest) as Hom
        by (simpl; by rewrite Hnow).
      rewrite Hom in Hge, Hnum, Hsorted.
      apply Forall_cons in Hge as [HT _].
      apply Forall_cons in Hnum as [Hnn Hnum].
      apply StronglySorted_inv in Hsorted as [Hsorted Hall].
      apply (IH (exec valid_price c w).2 now); [|done|done|done|done|done].
      apply (exec_logs_ordered c w T now); [done|done|done|done|].
      intros now' Hn. congruence.
    + assert (omap call_time (c :: rest) = omap call_time rest) as Hom
        by (simpl; by rewrite Hnow).
      rewrite Hom in Hge, Hnum, Hsorted.
      apply (IH (exec valid_price c w).2 T); [|done|done|done|done|done].
      apply (exec_logs_ordered c w T T); [done|done|done|done|].
      intros now' Hn. congruence.
Qed.

End RunOrder.

(** X13: when the stocks that are registered are fresh from their
    constructors and the clock never goes back between calls, the log of
    every stock of the market is in execution order after any sequence of
    calls, so that the early exit of the backward scan loses nothing: at
    any time the volume-weighted price of the stock is what filtering its
    whole log for the recent trades gives, totals and quotient taken in the
    arithmetic of the loop. *)
Theorem logs_stay_time_ordered
    (valid_price : string → num → bool) (cs : list call) (k : string) (s : Stock) :
  fresh_registrations cs →
  clock_ordered cs →
  stocks_by_name (run valid_price cs (Market_init, [])).1 !! k = Some s →
  time_ordered (trades s)
  ∧ ∀ now,
      get_volume_weighted_price now s
      = volume_weighted_price_by_filter now (trades s).
Proof.
  intros Hfresh [Hclock Hnum] Hl.
  assert (StronglySorted (λ a b, float_le a b = true) (omap call_time cs))
    as Hsorted.
  { apply Sorted_StronglySorted; [|done]. intros a b c. apply float_le_trans. }
  assert (∃ T, float_le T T = true
               ∧ Forall (λ now, float_le T now = true) (omap call_time cs))
    as (T & HTT & HT).
  { destruct (omap call_time cs) as [|T rest]; [by exists 0%float|].
    exists T. apply Forall_cons in Hnum as [HTT _]. split; [done|].
    apply StronglySorted_inv in Hsorted as [_ Hall]. by constructor. }
  assert (logs_ordered_until T (Market_init, @nil string).1) as Hinit.
  { intros k' s' Hl'. simpl in Hl'. by rewrite lookup_empty in Hl'. }
  destruct (run_logs_ordered valid_price cs (Market_init, []) T
              Hinit Hfresh HTT HT Hnum Hsorted) as [T' Hinv].
  destruct (Hinv k s Hl) as [Hord _]. split; [done|].
  intros now. by apply get_volume_weighted_price_by_filter.
Qed.

Lemma logs_stay_time_ordered_demo :
  fresh_registrations demo_calls ∧ clock_ordered demo_calls
  ∧ ∃ s, stocks_by_name (run is_valid_price demo_calls (Market_init, [])).1
           !! "TEA"%string = Some s
         ∧ length (trades s) = 2%nat ∧ time_ordered (trades s).
Proof.
  assert (fresh_registrations demo_calls) as Hfresh.
  { intros stock Hin. unfold demo_calls in Hin.
    repeat (apply elem_of_cons in Hin as [Hin|Hin]; [by simplify_eq|]).
    by apply elem_of_nil in Hin. }
  assert (clock_ordered demo_calls) as Hclock.
  { split; repeat constructor. }
  split; [exact Hfresh|]. split; [exact Hclock|].
  destruct (stocks_by_name (run is_valid_price demo_calls (Market_init, [])).1
              !! "TEA"%string) as [s|] eqn:Hl; [|by vm_compute in Hl].
  exists s. split; [done|]. split.
  - vm_compute in Hl. by injection Hl as <-.
  - exact (proj1 (logs_stay_time_ordered is_valid_price demo_calls "TEA" s
                    Hfresh Hclock Hl)).
Defined.

Section RunIds.

Variable valid_price : string → num → bool.

Lemma trade_of_call_id id c t : trade_of_call id c = Some t → trade_id t = id.
Proof. destruct c; simpl; try done; by intros [= <-]. Qed.

Lemma exec_ids c w :
  (∀ stock, c = CallRegister stock → trades stock = []) →
  (1 ≤ trade_id_counter w.1)%Z → ids_issued w.1 → ids_unique w.1 →
  (1 ≤ trade_id_counter (exec valid_price c w).2.1)%Z
  ∧ ids_issued (exec valid_price c w).2.1
  ∧ ids_unique (exec valid_price c w).2.1.
Proof.
  intros Hfresh Hone Hissued Hunique.
  pose proof (exec_counter_mono valid_price c w) as Hmono.
  split; [lia|]. split.
  - intros k s' t Hl' Hin.
    destruct (exec_stock_step valid_price c w k s' Hl')
      as [(s & Hl & Ht & _)|[[-> _]|(s & tn & Hl & _ & Htr & Ht & _ & _ & Hc)]].
    + rewrite Ht in Hin. specialize (Hissued k s t Hl Hin). lia.
    + rewrite (Hfresh s' eq_refl) in Hin. by apply elem_of_nil in Hin.
    + rewrite Ht in Hin. apply elem_of_app in Hin as [Hin|Hin].
      * specialize (Hissued k s t Hl Hin). lia.
      * apply list_elem_of_singleton in Hin as ->.
        rewrite (trade_of_call_id _ _ _ Htr). lia.
  - intros k1 k2 s1' s2' i j t1 t2 Hl1' Hl2' Hi Hj Hid.
    destruct (exec_stock_step valid_price c w k1 s1' Hl1')
      as [(s1 & Hl1 & Ht1 & _)|[[-> _]|
          (s1 & tn1 & Hl1 & Hsym1 & Htr1 & Ht1 & _ & _ & _)]].
    + rewrite Ht1 in Hi.
      pose proof (Hissued k1 s1 t1 Hl1 (list_elem_of_lookup_2 _ _ _ Hi)) as Hb1.
      destruct (exec_stock_step valid_price c w k2 s2' Hl2')
        as [(s2 & Hl2 & Ht2 & _)|[[-> _]|
            (s2 & tn2 & Hl2 & _ & Htr2 & Ht2 & _ & _ & _)]].
      * rewrite Ht2 in Hj. by apply (Hunique k1 k2 s1 s2 i j t1 t2).
      * rewrite (Hfresh s2' eq_refl) in Hj. done.
      * rewrite Ht2 in Hj. apply lookup_snoc_Some in Hj as [[_ Hj]|[_ <-]].
        -- by apply (Hunique k1 k2 s1 s2 i j t1 t2).
        -- rewrite (trade_of_call_id _ _ _ Htr2) in Hid. lia.
    + rewrite (Hfresh s1' eq_refl) in Hi. done.
    + rewrite Ht1 in Hi.
      destruct (exec_stock_step valid_price c w k2 s2' Hl2')
        as [(s2 & Hl2 & Ht2 & _)|[[-> _]|
            (s2 & tn2 & Hl2 & Hsym2 & Htr2 & Ht2 & _ & _ & _)]].
      * rewrite Ht2 in Hj.
        pose proof (Hissued k2 s2 t2 Hl2 (list_elem_of_lookup_2 _ _ _ Hj)) as Hb2.
        apply lookup_snoc_Some in Hi as [[_ Hi]|[_ <-]].
        -- by apply (Hunique k1 k2 s1 s2 i j t1 t2).
        -- rewrite (trade_of_call_id _ _ _ Htr1) in Hid. lia.
      * rewrite (Hfresh s2' eq_refl) in Hj. done.
      * assert (k1 = k2) as <- by congruence.
        assert (s2 = s1) as -> by congruence.
        assert (tn2 = tn1) as -> by congruence.
        rewrite Ht2 in Hj. split; [done|].
        apply lookup_snoc_Some in Hi as [[Hi' Hi]|[-> <-]];
          apply lookup_snoc_Some in Hj as [[Hj' Hj]|[-> <-]].
        -- by apply (Hunique k1 k1 s1 s1 i j t1 t2).
        -- pose proof (Hissued k1 s1 t1 Hl1 (list_elem_of_lookup_2 _ _ _ Hi)).
           rewrite (trade_of_call_id _ _ _ Htr1) in Hid. lia.
        -- pose proof (Hissued k1 s1 t2 Hl1 (list_elem_of_lookup_2 _ _ _ Hj)).
           rewrite (trade_of_call_id _ _ _ Htr1) in Hid. lia.
        -- done.
Qed.

Lemma run_ids cs :
  ∀ w,
    fresh_registrations cs →
    (1 ≤ trade_id_counter w.1)%Z → ids_issued w.1 → ids_unique w.1 →
    ids_issued (run valid_price cs w).1 ∧ ids_unique (run valid_price cs w).1.
Proof.
  induction cs as [|c rest IH]; intros w Hfresh Hone Hissued Hunique; [done|].
  apply fresh_registrations_cons in Hfresh as [Hc Hfresh].
  destruct (exec_ids c w Hc Hone Hissued Hunique) as (Hone' & Hissued' & Hunique').
  simpl. by apply IH.
Qed.

End RunIds.

(** X14: when the stocks that are registered are fresh from their
    constructors, then after any sequence of calls on a fresh market every
    trade in every log carries an id the counter has issued, from [1] to
    just below the counter, and no two trades of the market, in the same
    log or in the logs of two stocks, carry the same id. *)
Theorem trade_ids_unique_in_logs
    (valid_price : string → num → bool) (cs : list call) :
  fresh_registrations cs →
  ids_issued (run valid_price cs (Market_init, [])).1
  ∧ ids_unique (run valid_price cs (Market_init, [])).1.
Proof.
  intros Hfresh. apply run_ids; [done|done| |].
  - intros k s t Hl. simpl in Hl. by rewrite lookup_empty in Hl.
  - intros k1 k2 s1 s2 i j t1 t2 Hl. simpl in Hl. by rewrite lookup_empty in Hl.
Qed.

Lemma trade_ids_unique_in_logs_demo :
  fresh_registrations demo_calls
  ∧ ids_issued (run is_valid_price demo_calls (Market_init, [])).1
  ∧ ids_unique (run is_valid_price demo_calls (Market_init, [])).1.
Proof.
  assert (fresh_registrations demo_calls) as Hfresh.
  { intros stock Hin. unfold demo_calls in Hin.
    repeat (apply elem_of_cons in Hin as [Hin|Hin]; [by simplify_eq|]).
    by apply elem_of_nil in Hin. }
  split; [exact Hfresh|].
  exact (trade_ids_unique_in_logs is_valid_price demo_calls Hfresh).
Defined.

(** * What a call leaves alone *)

Lemma volume_weighted_price_of_log now s s' :
  trades s' = trades s →
  get_volume_weighted_price now s' = get_volume_weighted_price now s.
Proof. intros H. unfold get_volume_weighted_price. by rewrite H. Qed.

(** X15: a buy or a sell, whether it succeeds or raises, leaves every
    stock other than the one it names exactly as it was, and on the stock
    it names it changes nothing but the price and the end of the log. *)
Theorem trade_leaves_other_stocks
    (valid_price : string → num → bool) (side : TradeIndicator)
    (n : string) (q p : num) (now : float) (m : Market) :
  (∀ k, k ≠ n →
     stocks_by_name
       (match side with
        | BUY => buy_now valid_price n q p now m
        | SELL => sell_now valid_price n q p now m
        end).2 !! k
     = stocks_by_name m !! k)
  ∧ (∀ s', stocks_by_name
             (match side with
              | BUY => buy_now valid_price n q p now m
              | SELL => sell_now valid_price n q p now m
              end).2 !! n = Some s' →
       ∃ s, stocks_by_name m !! n = Some s
            ∧ name s' = name s ∧ variant s' = variant s
            ∧ (trades s' = trades s ∧ price s' = price s
               ∨ (∃ t, trades s' = trades s ++ [t]) ∧ price s' = p)).
Proof.
  assert ((match side with
           | BUY => buy_now valid_price n q p now m
           | SELL => sell_now valid_price n q p now m
           end) = trade_outcome valid_price side n q p now m) as ->.
  { destruct side; [apply buy_now_result|apply sell_now_result]. }
  unfold trade_outcome.
  destruct (stocks_by_name m !! n) as [s|] eqn:Hl.
  - destruct (decide (n = name s)).
    + destruct (valid_price (name s) p); simpl.
      * split.
        -- intros k Hk. by rewrite lookup_insert_ne.
        -- rewrite lookup_insert_eq. intros s' [= <-]. exists s. simpl.
           split; [done|]. split; [done|]. split; [done|]. right.
           split; [by eexists|done].
      * split; [done|]. intros s' Hs'. exists s. rewrite Hl in Hs'.
        injection Hs' as <-. split_and!; try done. by left.
    + split; [done|]. intros s' Hs'. exists s. simpl in Hs'. rewrite Hl in Hs'.
      injection Hs' as <-. split_and!; try done. by left.
  - split; [done|]. intros s' Hs'. simpl in Hs'. by rewrite Hl in Hs'.
Qed.

(** X16: a batch of price updates, applied in full or cut short by a
    rejected price, adds no stock, and leaves the symbol, the class data
    and the log of every stock as they were; so the volume-weighted price
    of every stock, at any time, is what it was before the batch. *)
Theorem update_stock_prices_keeps_logs
    (valid_price : string → num → bool) (new_prices : list (string * num))
    (w : World) (k : string) (s' : Stock) :
  stocks_by_name (update_stock_prices valid_price new_prices w).2.1 !! k = Some s' →
  ∃ s, stocks_by_name w.1 !! k = Some s
       ∧ name s' = name s ∧ variant s' = variant s ∧ trades s' = trades s
       ∧ ∀ now, get_volume_weighted_price now s' = get_volume_weighted_price now s.
Proof.
  intros Hl'.
  apply update_stock_prices_frame in Hl' as (s & Hl & Ht & Hn & Hv).
  exists s. split; [done|]. split; [done|]. split; [done|]. split; [done|].
  intros now. by apply volume_weighted_price_of_log.
Qed.

Lemma update_stock_prices_keeps_logs_demo :
  ∃ s', stocks_by_name
          (update_stock_prices is_valid_price [("TEA"%string, PyInt 40)]
             (mkMarket {["TEA"%string := TEA_traded]} 3, [])).2.1
          !! "TEA"%string = Some s'
        ∧ price s' = PyInt 40
        ∧ get_volume_weighted_price 2 s'
          = get_volume_weighted_price 2 TEA_traded.
Proof.
  assert (stocks_by_name
            (update_stock_prices is_valid_price [("TEA"%string, PyInt 40)]
               (mkMarket {["TEA"%string := TEA_traded]} 3, [])).2.1
            !! "TEA"%string = Some (with_price (PyInt 40) TEA_traded)) as Hl'
    by (by vm_compute).
  exists (with_price (PyInt 40) TEA_traded). split; [exact Hl'|]. split; [done|].
  destruct (update_stock_prices_keeps_logs _ _ _ _ _ Hl')
    as (s & Hl & _ & _ & _ & Hprice).
  assert (s = TEA_traded) as -> by (vm_compute in Hl; by injection Hl as <-).
  apply Hprice.
Defined.

(** * The symbols construction accepts *)

Lemma re_match_upper3_prefix s :
  re_match_upper3 s = true
  ↔ ∃ a b c rest, s = String a (String b (String c rest))
                  ∧ is_upper a = true ∧ is_upper b = true ∧ is_upper c = true.
Proof.
  split.
  - destruct s as [|a [|b [|c rest]]]; simpl; try done.
    intros [[Ha Hb]%andb_prop Hc]%andb_prop. by exists a, b, c, rest.
  - intros (a & b & c & rest & -> & Ha & Hb & Hc). simpl. by rewrite Ha, Hb, Hc.
Qed.

(** X17: what construction looks at is the first three characters of the
    symbol: a stock of either class is constructed exactly when a symbol is
    given, its first three characters are upper-case letters and the rule
    accepts the price; the checks come in that order, so a bad symbol
    raises [InvalidSymbol] even with a price the rule would reject, and a
    symbol shorter than three characters is always rejected.  The stock
    constructed has the symbol and the price as given and an empty log. *)
Theorem construction_by_symbol_prefix
    (valid_price : string → num → bool) (n : option string) (d r pv p : num) :
  ((∃ s, CommonStock_init valid_price n d p = Ok s)
   ↔ ∃ a b c rest, n = Some (String a (String b (String c rest)))
       ∧ is_upper a = true ∧ is_upper b = true ∧ is_upper c = true
       ∧ valid_price (String a (String b (String c rest))) p = true)
  ∧ ((∃ s, CommonStock_init valid_price n d p = Ok s)
     ↔ ∃ s, PreferredStock_init valid_price n r pv p = Ok s)
  ∧ (is_valid_name n = false →
       CommonStock_init valid_price n d p = Raise (InvalidSymbol n)
       ∧ PreferredStock_init valid_price n r pv p = Raise (InvalidSymbol n))
  ∧ (∀ sym, n = Some sym → (String.length sym < 3)%nat → is_valid_name n = false)
  ∧ (∀ s, CommonStock_init valid_price n d p = Ok s →
       n = Some (name s) ∧ price s = p ∧ trades s = []
       ∧ variant s = Common d)
  ∧ (∀ s, PreferredStock_init valid_price n r pv p = Ok s →
       n = Some (name s) ∧ price s = p ∧ trades s = []
       ∧ variant s = Preferred r pv).
Proof.
  unfold CommonStock_init, PreferredStock_init. rewrite Stock_init_result.
  destruct n as [sym|]; simpl.
  - destruct (re_match_upper3 sym) eqn:Hm.
    + apply re_match_upper3_prefix in Hm as (a & b & c & rest & -> & Ha & Hb & Hc).
      destruct (valid_price _ p) eqn:Hv; simpl.
      * split; [split; [intros _; by exists a, b, c, rest|by eexists]|].
        split; [split; by eexists|]. split; [done|].
        split; [intros sym [= <-]; simpl; lia|].
        split; by intros s [= <-].
      * split; [split; [by intros [? ?]|]|].
        { intros (a' & b' & c' & rest' & [= -> -> -> ->] & _ & _ & _ & Hv').
          congruence. }
        split; [split; by intros [? ?]|]. split; [done|].
        split; [intros sym [= <-]; simpl; lia|].
        split; by intros s.
    + split; [split; [by intros [? ?]|]|].
      { intros (a & b & c & rest & [= ->] & Ha & Hb & Hc & _).
        simpl in Hm. by rewrite Ha, Hb, Hc in Hm. }
      split; [split; by intros [? ?]|]. split; [done|].
      split; [done|]. split; by intros s.
  - split; [split; [by intros [? ?]|by intros (? & ? & ? & ? & ? & _)]|].
    split; [split; by intros [? ?]|]. split; [done|].
    split; [done|]. split; by intros s.
Qed.

